(** * Test-time adaptation core of fusion_bench: a shallow embedding

    The development follows two source files:
    - [fusion_bench/method/dawe/dawe_for_clip.py]
      ([DataAdaptiveWeightEnsemblingForCLIP]: model loading, the adaptation
      loop and its checkpoints);
    - [fusion_bench/compat/method/adamerging/clip_task_wise_adamerging.py]
      ([InfiniteDataLoader] and [CLIPTaskWiseAdaMergingAlgorithm]: the
      zero-shot head cache and the logit computation).

    Python integers are [Z], Python exceptions are values of [py_error]
    carried by [result], dictionaries are [gmap]s, tensors are matrices of
    numbers given as lists of rows. *)

From Stdlib Require Import ZArith List Lia Reals Lra Ascii Sorted.
From stdpp Require Import gmap strings list.
Import ListNotations.

Local Open Scope Z_scope.

(** ** Python exceptions and fallible computations *)

Inductive py_error : Type :=
  | StopIteration
  | UnboundLocalError
  | ZeroDivisionError
  | AttributeError
  | IndexError
  | KeyError
  | RuntimeError
  | ConfigurationError.

Global Instance py_error_eq_dec : EqDecision py_error.
Proof. solve_decision. Defined.

Inductive result (A : Type) : Type :=
  | Ok (a : A)
  | Raise (e : py_error).
Arguments Ok {A} a.
Arguments Raise {A} e.

Global Instance result_ret : MRet result := fun A a => Ok a.
Global Instance result_bind : MBind result := fun A B f r =>
  match r with
  | Ok a => f a
  | Raise e => Raise e
  end.

Definition is_ok {A} (r : result A) : bool :=
  match r with Ok _ => true | Raise _ => false end.

(** Python's [a % b] on integers: the result has the sign of the divisor, as
    [Z.modulo] has, and a zero divisor raises. *)
Definition py_mod (a b : Z) : result Z :=
  if b =? 0 then Raise ZeroDivisionError else Ok (a mod b).

(** [range(n)]: the integers [0 .. n-1], empty when [n <= 0]. *)
Definition py_range (n : Z) : list Z := map Z.of_nat (seq 0 (Z.to_nat n)).


(** ** Checkpointing in [DataAdaptiveWeightEnsemblingForCLIP.run] *)

Module Checkpointing.
Section Run.
Context {Model : Type}.
(** Lines 207-223 of [run]: one adaptation step, seen here only through
    its effect on the model. *)
Variable adapt : Z -> Model -> Model.

(** One call of [fabric.save(log_dir/checkpoints/model_{step}.pt,
    {"model": model})]. *)
Record save_event : Type := SaveEvent { ckpt_step : Z; ckpt_model : Model }.

(** The local variables of [run] that the checkpoint logic reads, and the
    saves performed so far.  [step_idx] is unbound until the loop has
    entered its first iteration. *)
Record run_state : Type := RunState {
  step_idx : option Z;
  model : Model;
  written : list save_event
}.

Inductive outcome : Type :=
  | Returned (m : Model) (w : list save_event)
  | Aborted (e : py_error) (w : list save_event).

Definition fabric_save (st : run_state) (i : Z) : run_state :=
  {| step_idx := step_idx st; model := model st;
     written := written st ++ [SaveEvent i (model st)] |}.

(** Body of the [for] loop, lines 206-229. *)
Definition loop_body (save_interval : Z) (i : Z) (st : run_state)
  : result run_state :=
  let st1 := {| step_idx := Some i; model := adapt i (model st);
                written := written st |} in
  r ← py_mod (i + 1) save_interval;
  if r =? 0 then Ok (fabric_save st1 i) else Ok st1.

Fixpoint for_loop (save_interval : Z) (steps : list Z) (st : run_state)
  : run_state * option py_error :=
  match steps with
  | [] => (st, None)
  | i :: rest =>
      match loop_body save_interval i st with
      | Ok st' => for_loop save_interval rest st'
      | Raise e => (st, Some e)
      end
  end.

(** Lines 231-238: the save after the loop reads [step_idx]. *)
Definition final_save (save_interval : Z) (st : run_state) : result run_state :=
  match step_idx st with
  | None => Raise UnboundLocalError
  | Some i =>
      r ← py_mod (i + 1) save_interval;
      if negb (r =? 0) then Ok (fabric_save st i) else Ok st
  end.

Definition run (m0 : Model) (max_steps save_interval : Z) : outcome :=
  let st0 := {| step_idx := None; model := m0; written := [] |} in
  match for_loop save_interval (py_range max_steps) st0 with
  | (st, Some e) => Aborted e (written st)
  | (st, None) =>
      match final_save save_interval st with
      | Ok st' => Returned (model st') (written st')
      | Raise e => Aborted e (written st)
      end
  end.

(** The model after the first [n] adaptation steps. *)
Definition adapted (m0 : Model) (n : nat) : Model :=
  fold_left (fun m i => adapt i m) (py_range (Z.of_nat n)) m0.

Definition save_point (save_interval step : Z) : bool :=
  (step + 1) mod save_interval =? 0.

Definition steps_of (w : list save_event) : list Z := map ckpt_step w.

(** The checkpoints the specification promises for a run. *)
Definition scheduled (save_interval max_steps : Z) : list Z :=
  List.filter (save_point save_interval) (py_range max_steps)
  ++ (if save_point save_interval (max_steps - 1) then [] else [max_steps - 1]).


(** The event written for step [s] carries the model after [s+1] steps. *)
Definition event_at (m0 : Model) (s : Z) : save_event :=
  SaveEvent s (adapted m0 (Z.to_nat (s + 1))).

Definition loop_saves (m0 : Model) (si : Z) (n : nat) : list save_event :=
  map (event_at m0) (List.filter (save_point si) (py_range (Z.of_nat n))).

Definition state_after (m0 : Model) (si : Z) (n : nat) : run_state :=
  {| step_idx := match n with O => None | S k => Some (Z.of_nat k) end;
     model := adapted m0 n;
     written := loop_saves m0 si n |}.

(** *** Facts about the loop *)

Lemma py_range_S (n : nat) :
  py_range (Z.of_nat (S n)) = py_range (Z.of_nat n) ++ [Z.of_nat n].
Proof.
  unfold py_range. rewrite !Nat2Z.id, seq_S, map_app. reflexivity.
Qed.

Lemma py_range_bound (n : Z) (i : Z) : In i (py_range n) -> 0 <= i < n.
Proof.
  unfold py_range. rewrite in_map_iff. intros (k & <- & Hk).
  apply in_seq in Hk. lia.
Qed.

Lemma adapted_S (m0 : Model) (n : nat) :
  adapted m0 (S n) = adapt (Z.of_nat n) (adapted m0 n).
Proof. unfold adapted. rewrite py_range_S, fold_left_app. reflexivity. Qed.

Lemma for_loop_app (si : Z) (l1 l2 : list Z) (st : run_state) :
  for_loop si (l1 ++ l2) st =
  match for_loop si l1 st with
  | (st', None) => for_loop si l2 st'
  | (st', Some e) => (st', Some e)
  end.
Proof.
  revert st. induction l1 as [|i l1 IH]; intros st; simpl; [reflexivity|].
  destruct (loop_body si i st); [apply IH | reflexivity].
Qed.

Lemma loop_saves_S (m0 : Model) (si : Z) (n : nat) :
  loop_saves m0 si (S n) =
  loop_saves m0 si n ++
    (if save_point si (Z.of_nat n) then [SaveEvent (Z.of_nat n) (adapted m0 (S n))]
     else []).
Proof.
  unfold loop_saves. rewrite py_range_S, List.filter_app, map_app. simpl.
  destruct (save_point si (Z.of_nat n)); [|reflexivity].
  simpl. unfold event_at.
  replace (Z.to_nat (Z.of_nat n + 1)) with (S n) by lia. reflexivity.
Qed.

(** Loop invariant: after [n] iterations the state is [state_after n]. *)
Lemma for_loop_invariant (m0 : Model) (si : Z) (n : nat) :
  si <> 0 ->
  for_loop si (py_range (Z.of_nat n)) (RunState None m0 []) =
  (state_after m0 si n, None).
Proof.
  intros Hsi. induction n as [|n IH]; [reflexivity|].
  rewrite py_range_S, for_loop_app, IH. simpl.
  unfold loop_body, py_mod. apply Z.eqb_neq in Hsi. rewrite Hsi. simpl.
  unfold state_after. rewrite loop_saves_S, adapted_S. unfold save_point.
  destruct ((Z.of_nat n + 1) mod si =? 0); simpl.
  - reflexivity.
  - rewrite app_nil_r. reflexivity.
Qed.



Lemma run_returns (m0 : Model) (max_steps si : Z) :
  1 <= max_steps -> si <> 0 ->
  run m0 max_steps si =
  Returned (adapted m0 (Z.to_nat max_steps))
           (map (event_at m0) (scheduled si max_steps)).
Proof.
  intros Hms Hsi.
  destruct (Z.to_nat max_steps) as [|n] eqn:Hn; [lia|].
  replace max_steps with (Z.of_nat (S n)) by lia.
  unfold run. rewrite for_loop_invariant by assumption.
  unfold final_save, state_after, step_idx, py_mod.
  apply Z.eqb_neq in Hsi. rewrite Hsi. simpl mbind.
  unfold scheduled. replace (Z.of_nat (S n) - 1) with (Z.of_nat n) by lia.
  fold (save_point si (Z.of_nat n)). rewrite map_app.
  fold (loop_saves m0 si (S n)).
  destruct (save_point si (Z.of_nat n)); simpl.
  - rewrite app_nil_r. reflexivity.
  - unfold event_at.
    replace (Z.to_nat (Z.of_nat n + 1)) with (S n) by lia. reflexivity.
Qed.



(** With no iteration at all, [step_idx] is never bound and the test after
    the loop raises before anything is saved. *)
Lemma run_without_steps (m0 : Model) (max_steps save_interval : Z) :
  max_steps <= 0 ->
  run m0 max_steps save_interval = Aborted UnboundLocalError [].
Proof.
  intros Hms. unfold run, py_range.
  replace (Z.to_nat max_steps) with 0%nat by lia. reflexivity.
Qed.


End Run.

(** A model that only counts the adaptation steps applied to it. *)
Definition counting_adapt (_ : Z) (m : nat) : nat := S m.



End Checkpointing.

(** ** [InfiniteDataLoader] *)

Module InfiniteStream.

Local Open Scope nat_scope.

Section Loader.
Context {Batch : Type}.

(** The wrapped loader is any iterable with finite passes: [iter(loader)]
    starts a pass, and the [k]-th pass started yields the batches
    [loader k] in order (a loader built with [shuffle=True] orders each
    pass anew).  An iterator is the list of batches it has still to
    yield. *)
Definition data_loader : Type := nat -> list Batch.

(** The attributes of an [InfiniteDataLoader]; [passes_started] counts
    the calls of [iter(self.data_loader)] made so far. *)
Record infinite_data_loader : Type := Stream {
  loader : data_loader;
  passes_started : nat;
  data_iter : list Batch
}.

(** [__init__], lines 23-25. *)
Definition init (l : data_loader) : infinite_data_loader :=
  {| loader := l; passes_started := 1; data_iter := l 0 |}.

(** [next(it)] on a list iterator. *)
Definition iter_next (it : list Batch) : result Batch * list Batch :=
  match it with
  | b :: rest => (Ok b, rest)
  | [] => (Raise StopIteration, [])
  end.

(** [__next__], lines 30-36: the second [next] is outside the [try]. *)
Definition next (s : infinite_data_loader) : result Batch * infinite_data_loader :=
  match iter_next (data_iter s) with
  | (Ok data, it) =>
      (Ok data, {| loader := loader s; passes_started := passes_started s;
                   data_iter := it |})
  | (Raise StopIteration, _) =>
      let fresh := loader s (passes_started s) in
      let (r, it) := iter_next fresh in
      (r, {| loader := loader s; passes_started := S (passes_started s);
             data_iter := it |})
  | (Raise e, it) =>
      (Raise e, {| loader := loader s; passes_started := passes_started s;
                   data_iter := it |})
  end.

(** [n] consecutive calls of [next], stopping at the first that raises. *)
Fixpoint next_n (n : nat) (s : infinite_data_loader)
  : result (list Batch) * infinite_data_loader :=
  match n with
  | O => (Ok [], s)
  | S n' =>
      match next s with
      | (Ok b, s') =>
          match next_n n' s' with
          | (Ok bs, s'') => (Ok (b :: bs), s'')
          | (Raise e, s'') => (Raise e, s'')
          end
      | (Raise e, s') => (Raise e, s')
      end
  end.

(** A source of length [L]: every pass yields [L] batches. *)
Definition has_length (l : data_loader) (L : nat) : Prop :=
  forall k, length (l k) = L.

(** §4.1 and §8.1 for one source: every run of consecutive calls returns
    batches only, and call number [j] (from 0) returns batch [j mod L] of
    pass [j / L]. *)
Definition never_exhausted (l : data_loader) (L : nat) : Prop :=
  forall n, exists bs s',
    next_n n (init l) = (Ok bs, s')
    /\ length bs = n
    /\ forall j, j < n -> bs !! j = l (j / L) !! (j mod L).

(** The stream has answered [j] calls: it is [r] batches into pass [q]. *)
Definition at_call (l : data_loader) (L : nat) (j : nat)
  (s : infinite_data_loader) : Prop :=
  exists q r, j = q * L + r /\ r <= L /\ loader s = l
              /\ passes_started s = S q /\ data_iter s = drop r (l q).

(** *** One call, then any number of calls *)

Lemma iter_next_drop (it : list Batch) (r : nat) (b : Batch) :
  it !! r = Some b -> iter_next (drop r it) = (Ok b, drop (S r) it).
Proof. intros Hb. rewrite (drop_S _ _ _ Hb). reflexivity. Qed.

Lemma next_at_call (l : data_loader) (L j : nat) (s : infinite_data_loader) :
  has_length l L -> 1 <= L -> at_call l L j s ->
  exists b s', next s = (Ok b, s')
               /\ l (j / L) !! (j mod L) = Some b
               /\ at_call l L (S j) s'.
Proof.
  intros Hlen HL (q & r & Hj & Hr & Hl & Hp & Hit).
  destruct (decide (r < L)) as [Hlt|Hge].
  - (* still inside pass [q] *)
    destruct (lookup_lt_is_Some_2 (l q) r) as [b Hb]; [rewrite Hlen; lia|].
    exists b. eexists. unfold next. rewrite Hit, (iter_next_drop _ _ _ Hb).
    split; [reflexivity|].
    assert (Hq : j / L = q) by (symmetry; apply (Nat.div_unique j L q r); lia).
    assert (Hm : j mod L = r) by (symmetry; apply (Nat.mod_unique j L q r); lia).
    rewrite Hq, Hm. split; [exact Hb|].
    exists q, (S r). repeat split; try assumption; lia.
  - (* pass [q] is exhausted: a fresh pass starts *)
    assert (r = L) by lia. subst r.
    destruct (lookup_lt_is_Some_2 (l (S q)) 0) as [b Hb]; [rewrite Hlen; lia|].
    exists b. eexists. unfold next. rewrite Hit, drop_ge by (rewrite Hlen; lia).
    simpl iter_next. cbv iota beta. rewrite Hp, Hl.
    rewrite <- (drop_0 (l (S q))) at 1. rewrite (iter_next_drop _ _ _ Hb).
    split; [reflexivity|].
    assert (Hq : j / L = S q) by (symmetry; apply (Nat.div_unique j L (S q) 0); lia).
    assert (Hm : j mod L = 0) by (symmetry; apply (Nat.mod_unique j L (S q) 0); lia).
    rewrite Hq, Hm. split; [exact Hb|].
    exists (S q), 1. repeat split; try assumption; lia.
Qed.

Lemma next_n_at_call (l : data_loader) (L : nat) :
  has_length l L -> 1 <= L ->
  forall n j s, at_call l L j s ->
  exists bs s', next_n n s = (Ok bs, s')
                /\ length bs = n
                /\ forall i, i < n -> bs !! i = l ((j + i) / L) !! ((j + i) mod L).
Proof.
  intros Hlen HL. induction n as [|n IH]; intros j s Hat.
  - exists [], s. repeat split. intros i Hi. lia.
  - destruct (next_at_call l L j s Hlen HL Hat) as (b & s1 & Hnext & Hb & Hat1).
    destruct (IH (S j) s1 Hat1) as (bs & s2 & Hrest & Hlenbs & Hbs).
    exists (b :: bs), s2. simpl. rewrite Hnext, Hrest.
    split; [reflexivity|]. split; [simpl; lia|].
    intros [|i] Hi.
    + rewrite Nat.add_0_r. simpl. symmetry. exact Hb.
    + replace (j + S i) with (S j + i) by lia. rewrite <- Hbs by lia. reflexivity.
Qed.

Lemma at_call_init (l : data_loader) (L : nat) : at_call l L 0 (init l).
Proof. exists 0, 0. simpl. repeat split; lia. Qed.

(** C2 (amended): for a source of length [L >= 1], any number [n] of
    consecutive calls of [next] returns [n] batches and never raises; when
    a pass is exhausted the next call starts a fresh pass over the same
    loader and returns its first batch, so that call [j] returns batch
    [j mod L] of pass [j / L]. *)
Theorem nonempty_source_never_exhausted (l : data_loader) (L : nat) :
  has_length l L -> 1 <= L -> never_exhausted l L.
Proof.
  intros Hlen HL n.
  destruct (next_n_at_call l L Hlen HL n 0 (init l) (at_call_init l L))
    as (bs & s' & Hn & Hlenbs & Hbs).
  exists bs, s'. split; [exact Hn|]. split; [exact Hlenbs|].
  intros j Hj. apply (Hbs j Hj).
Qed.

(** A source with nothing to yield: the pass started on exhaustion is
    empty too, and its [StopIteration] reaches the caller. *)
Lemma next_empty_source (l : data_loader) :
  has_length l 0 -> fst (next (init l)) = Raise StopIteration.
Proof.
  intros Hlen. unfold next, init. simpl.
  rewrite (nil_length_inv _ (Hlen 0)). simpl.
  rewrite (nil_length_inv _ (Hlen 1)). reflexivity.
Qed.

End Loader.

(** The same three batches in every pass. *)
Definition three_batches : data_loader (Batch := nat) := fun _ => [10; 11; 12].

(** Thirty calls on a source of length three: ten full passes. *)
Lemma nonempty_source_thirty_calls :
  has_length three_batches 3 /\ 1 <= 3 /\
  exists bs s', next_n (10 * 3) (init three_batches) = (Ok bs, s')
                /\ length bs = 10 * 3
                /\ bs !! 3 = Some 10.
Proof.
  assert (Hlen : has_length three_batches 3) by (intros k; reflexivity).
  split; [exact Hlen|]. split; [lia|].
  destruct (nonempty_source_never_exhausted three_batches 3 Hlen ltac:(lia) (10 * 3))
    as (bs & s' & Hn & Hlenbs & Hbs).
  exists bs, s'. split; [exact Hn|]. split; [exact Hlenbs|].
  rewrite (Hbs 3) by lia. reflexivity.
Defined.

(** C2, as stated for any finite source, fails for the source of length 0:
    the first call raises the end-of-sequence error. *)
Lemma empty_source_exhausted :
  ~ never_exhausted (Batch := nat) (fun _ => []) 0.
Proof.
  intros H. destruct (H 1) as (bs & s' & Hn & _). discriminate Hn.
Qed.

End InfiniteStream.

(** ** The adaptation step of [DataAdaptiveWeightEnsemblingForCLIP.run] *)

(** The streams of the loop are [InfiniteDataLoader]s: [run] imports the
    class from [fusion_bench.utils.data], and the class of that name in the
    compat module, modelled above, stands for it. *)

Module AdaptationLoop.
Import InfiniteStream.

Section Step.
(** Tensors and the training state (the wrapped model with its optimizer)
    are kept abstract, as are the collaborators of [run] that operate on
    them. *)
Context {Images Labels Logits Loss Scalar Train : Type}.
Variable compute_logits : Train -> Images -> string -> Logits.
Variable entropy_loss : Logits -> Loss.
Variable int_add : Z -> Loss -> Loss.          (* [0 + loss] *)
Variable loss_add : Loss -> Loss -> Loss.      (* [losses + loss] *)
Variable item : Loss -> Scalar.                (* [losses.item()] *)
Variable zero_grad : Train -> Train.           (* [optimizer.zero_grad()] *)
Variable backward : Loss -> Train -> Train.    (* [fabric.backward(losses)] *)
Variable optimizer_step : Train -> Train.      (* [optimizer.step()] *)

Definition batch : Type := Images * Labels.

(** What one iteration does, in program order. *)
Inductive event : Type :=
  | NextBatch (task : string) (b : batch)
  | ComputeLogits (task : string) (images : Images)
  | EntropyLoss (task : string) (logits : Logits)
  | ZeroGrad
  | Backward (losses : Loss)
  | OptimizerStep
  | LogDict (step : Z) (loss : Scalar).

Record loop_state : Type := LoopState {
  shuffled_test_loader_iters : gmap string (infinite_data_loader (Batch := batch));
  train : Train;
  trace : list event
}.

(** [load_datasets], lines 188-191: one stream per name of the pool. *)
Definition load_datasets (model_names : list string)
    (test_loader : string -> data_loader (Batch := batch))
  : gmap string (infinite_data_loader (Batch := batch)) :=
  list_to_map (map (fun task_name => (task_name, init (test_loader task_name)))
                   model_names).

(** [losses += loss]: [losses] starts as the integer [0]. *)
Definition accumulate (losses : Z + Loss) (loss : Loss) : Z + Loss :=
  match losses with
  | inl z => inr (int_add z loss)
  | inr a => inr (loss_add a loss)
  end.

Definition task_events (tr : Train) (task_name : string) (b : batch) : list event :=
  [NextBatch task_name b;
   ComputeLogits task_name (fst b);
   EntropyLoss task_name (compute_logits tr (fst b) task_name)].

Definition task_loss (tr : Train) (task_name : string) (b : batch) : Loss :=
  entropy_loss (compute_logits tr (fst b) task_name).

(** Lines 208-212. *)
Fixpoint task_loop (model_names : list string) (losses : Z + Loss)
    (st : loop_state) : result ((Z + Loss) * loop_state) :=
  match model_names with
  | [] => Ok (losses, st)
  | task_name :: rest =>
      match shuffled_test_loader_iters st !! task_name with
      | None => Raise KeyError
      | Some s =>
          match next s with
          | (Raise e, _) => Raise e
          | (Ok b, s') =>
              let loss := task_loss (train st) task_name b in
              task_loop rest (accumulate losses loss)
                {| shuffled_test_loader_iters :=
                     <[task_name := s']> (shuffled_test_loader_iters st);
                   train := train st;
                   trace := trace st ++ task_events (train st) task_name b |}
          end
      end
  end.

(** Lines 207-223.  With no task at all [losses] is still the integer
    [0], which has neither [backward] nor [item]. *)
Definition adapt_step (model_names : list string) (step_idx : Z)
    (st : loop_state) : result loop_state :=
  '(losses, st1) ← task_loop model_names (inl 0%Z) st;
  match losses with
  | inl _ => Raise AttributeError
  | inr l =>
      Ok {| shuffled_test_loader_iters := shuffled_test_loader_iters st1;
            train := optimizer_step (backward l (zero_grad (train st1)));
            trace := trace st1 ++
                     [ZeroGrad; Backward l; OptimizerStep; LogDict step_idx (item l)] |}
  end.








(** *** Facts about one iteration *)










(** With no task the accumulator is still the integer [0] when the
    gradients have been zeroed, and the step raises. *)
Lemma adapt_step_no_task (step_idx : Z) (st : loop_state) :
  adapt_step [] step_idx st = Raise AttributeError.
Proof. reflexivity. Qed.

End Step.







End AdaptationLoop.

(** ** Paths: [os.path.basename] and [os.path.join] (POSIX) *)

Module Path.

Local Open Scope string_scope.

Definition is_sep (c : ascii) : bool := Ascii.eqb c "/"%char.

Definition startswith_sep (p : string) : bool :=
  match p with
  | String c _ => is_sep c
  | EmptyString => false
  end.

Fixpoint endswith_sep (p : string) : bool :=
  match p with
  | EmptyString => false
  | String c EmptyString => is_sep c
  | String _ rest => endswith_sep rest
  end.

(** [p[p.rfind('/') + 1:]]: [tail] is the part of the path after the last
    separator met so far. *)
Fixpoint basename_from (p tail : string) : string :=
  match p with
  | EmptyString => tail
  | String c rest =>
      if is_sep c then basename_from rest rest else basename_from rest tail
  end.

Definition basename (p : string) : string := basename_from p p.

(** [os.path.join(a, b)]. *)
Definition join (a b : string) : string :=
  if startswith_sep b then b
  else if (String.eqb a "" || endswith_sep a)%bool then a +:+ b
  else a +:+ "/" +:+ b.

Fixpoint has_sep (p : string) : bool :=
  match p with
  | EmptyString => false
  | String c rest => (is_sep c || has_sep rest)%bool
  end.

Lemma app_cons (a : ascii) (s t : string) : String a s +:+ t = String a (s +:+ t).
Proof. reflexivity. Qed.

Lemma app_snoc (front : string) (c : ascii) (rest : string) :
  front +:+ String c rest = (front +:+ String c "") +:+ rest.
Proof.
  induction front as [|a front IH]; [reflexivity|].
  rewrite !app_cons. f_equal. exact IH.
Qed.

Lemma has_sep_app (s t : string) : has_sep (s +:+ t) = (has_sep s || has_sep t)%bool.
Proof.
  induction s as [|a s IH]; [reflexivity|].
  rewrite app_cons. simpl. rewrite IH. apply orb_assoc.
Qed.

Lemma basename_from_no_sep (p tail front : string) :
  tail = front +:+ p -> has_sep front = false ->
  has_sep (basename_from p tail) = false.
Proof.
  revert tail front. induction p as [|c rest IH]; intros tail front Htail Hfront; simpl.
  - subst tail. rewrite has_sep_app, Hfront. reflexivity.
  - destruct (is_sep c) eqn:Hc.
    + apply (IH rest ""); reflexivity.
    + apply (IH tail (front +:+ String c "")).
      * subst tail. apply app_snoc.
      * rewrite has_sep_app, Hfront. simpl. rewrite Hc. reflexivity.
Qed.

Lemma basename_no_sep (p : string) : has_sep (basename p) = false.
Proof. apply (basename_from_no_sep p p ""); reflexivity. Qed.

Example basename_hub : basename "openai/clip-vit-base-patch32" = "clip-vit-base-patch32".
Proof. reflexivity. Qed.

Example join_plain : join "outputs/cache" "x.pt" = "outputs/cache/x.pt".
Proof. reflexivity. Qed.

End Path.

(** ** The zero-shot heads of [CLIPTaskWiseAdaMergingAlgorithm] *)

Module ZeroShotCache.

Section Heads.
(** [Weights] are the values of embedding matrices.  The task registry and
    the classifier are collaborators: [get_classnames_and_templates] raises
    for a task it does not know, and [classifier_weights path classnames
    templates] is [clip_classifier.zeroshot_weights] after
    [set_classification_task(classnames, templates)] for the CLIP model
    loaded from [path], one pass of the text encoder over the prompts. *)
Context {Weights Classnames Templates : Type}.
Variable get_classnames_and_templates : string -> result (Classnames * Templates).
Variable classifier_weights : string -> Classnames -> Templates -> Weights.

Inductive device : Type := Cpu | Accelerator.

Global Instance device_eq_dec : EqDecision device.
Proof. solve_decision. Defined.

(** A tensor object: [tensor_id] is its identity, so that two tensors with
    equal [data] can still be told apart. *)
Record tensor : Type := Tensor {
  tensor_id : nat;
  tensor_device : device;
  data : Weights
}.

Inductive event : Type :=
  | TorchLoad (cache_file : string)
  | SetClassificationTask (task : string)
  | TorchSave (cache_file : string)
  | StoreHead (task : string) (tensor_id : nat).

(** What the instances of the class share within one process.
    [zeroshot_weights] is the dict bound by line 42 in the class body: no
    method binds an attribute of that name on an instance, so
    [self.zeroshot_weights] denotes this one dict for every [self]. *)
Record process : Type := Process {
  files : gmap string Weights;
  zeroshot_weights : gmap string tensor;
  next_tensor_id : nat;
  encoder_calls : nat;
  events : list event
}.

(** One instance of the algorithm: its configuration, its pool and its
    fabric.  The cache directory is taken to exist, so that [torch.save]
    succeeds. *)
Record algorithm : Type := Algorithm {
  cache_dir : string;
  pretrained_path : string;
  model_names : list string;
  _fabric : option device
}.

(** Lines 94-97. *)
Definition cache_file (self : algorithm) (task : string) : string :=
  Path.join (cache_dir self)
    (Path.basename (pretrained_path self) +:+ "_" +:+ task +:+ "_zeroshot_weights.pt").

(** The path as the specification writes it. *)
Definition spec_cache_file (self : algorithm) (task : string) : string :=
  cache_dir self +:+ "/" +:+ Path.basename (pretrained_path self)
  +:+ "_" +:+ task +:+ "_zeroshot_weights.pt".

(** A tensor newly created on the CPU. *)
Definition new_tensor (w : Weights) (p : process) : tensor * process :=
  (Tensor (next_tensor_id p) Cpu w,
   {| files := files p; zeroshot_weights := zeroshot_weights p;
      next_tensor_id := S (next_tensor_id p);
      encoder_calls := encoder_calls p; events := events p |}).

(** [fabric.to_device(t)]: the tensor itself when it is on the device
    already, a copy on the device otherwise. *)
Definition to_device (d : device) (t : tensor) (p : process) : tensor * process :=
  if decide (tensor_device t = d) then (t, p)
  else (Tensor (next_tensor_id p) d (data t),
        {| files := files p; zeroshot_weights := zeroshot_weights p;
           next_tensor_id := S (next_tensor_id p);
           encoder_calls := encoder_calls p; events := events p |}).

Definition store_head (task : string) (t : tensor) (p : process) : process :=
  {| files := files p; zeroshot_weights := <[task := t]> (zeroshot_weights p);
     next_tensor_id := next_tensor_id p;
     encoder_calls := encoder_calls p;
     events := events p ++ [StoreHead task (tensor_id t)] |}.

Definition log_event (e : event) (p : process) : process :=
  {| files := files p; zeroshot_weights := zeroshot_weights p;
     next_tensor_id := next_tensor_id p;
     encoder_calls := encoder_calls p; events := events p ++ [e] |}.

(** Lines 98-107: the weights of the head, from the file or computed and
    saved. *)
Definition load_or_compute (self : algorithm) (task : string) (p : process)
  : result (tensor * process) :=
  let file := cache_file self task in
  match files p !! file with
  | Some w => Ok (new_tensor w (log_event (TorchLoad file) p))
  | None =>
      '(classnames, templates) ← get_classnames_and_templates task;
      let w := classifier_weights (pretrained_path self) classnames templates in
      let p1 := log_event (SetClassificationTask task) p in
      let '(t, p2) :=
        new_tensor w {| files := files p1; zeroshot_weights := zeroshot_weights p1;
                        next_tensor_id := next_tensor_id p1;
                        encoder_calls := S (encoder_calls p1);
                        events := events p1 |} in
      Ok (t, {| files := <[file := w]> (files p2);
                zeroshot_weights := zeroshot_weights p2;
                next_tensor_id := next_tensor_id p2;
                encoder_calls := encoder_calls p2;
                events := events p2 ++ [TorchSave file] |})
  end.

(** Lines 108-112. *)
Definition keep_head (self : algorithm) (task : string) (t : tensor) (p : process)
  : process :=
  let p1 := store_head task t p in
  match _fabric self with
  | None => p1
  | Some d =>
      match zeroshot_weights p1 !! task with
      | Some t1 => let '(t2, p2) := to_device d t1 p1 in store_head task t2 p2
      | None => p1
      end
  end.

(** One iteration of the loop of lines 93-112. *)
Definition build_head (self : algorithm) (task : string) (p : process)
  : result process :=
  '(t, p1) ← load_or_compute self task p;
  Ok (keep_head self task t p1).

(** [on_test_time_adaptation_start], lines 93-112. *)
Fixpoint build_heads (self : algorithm) (tasks : list string) (p : process)
  : result process :=
  match tasks with
  | [] => Ok p
  | task :: rest => p1 ← build_head self task p; build_heads self rest p1
  end.

Definition on_test_time_adaptation_start (self : algorithm) (p : process)
  : result process :=
  build_heads self (model_names self) p.

(** Line 116 of [compute_logits]: [self.zeroshot_weights[task]]. *)
Definition lookup_head (self : algorithm) (task : string) (p : process)
  : result tensor * process :=
  match zeroshot_weights p !! task with
  | Some t => (Ok t, p)
  | None => (Raise KeyError, p)
  end.


Definition is_store (task : string) (e : event) : Prop :=
  exists id, e = StoreHead task id.

(** The effect of keeping tensor [t] as the head of [task]: the head holds
    the data of [t], and nothing but the dict entry of [task] and the
    tensor counter changes. *)
Definition head_kept (task : string) (w : Weights) (p p' : process) : Prop :=
  (exists t, zeroshot_weights p' !! task = Some t /\ data t = w)
  /\ (forall task', task' <> task ->
        zeroshot_weights p' !! task' = zeroshot_weights p !! task')
  /\ files p' = files p
  /\ encoder_calls p' = encoder_calls p
  /\ exists stores, events p' = events p ++ stores
                    /\ stores <> [] /\ Forall (is_store task) stores.

(** §4.2, the branch taken when the cache file exists. *)
Definition head_from_file (self : algorithm) (task : string) (w : Weights)
    (p p' : process) : Prop :=
  (exists t, zeroshot_weights p' !! task = Some t /\ data t = w)
  /\ files p' = files p
  /\ encoder_calls p' = encoder_calls p
  /\ exists stores, events p' = events p ++ TorchLoad (cache_file self task) :: stores
                    /\ Forall (is_store task) stores.

(** §4.2, the branch taken when there is no cache file. *)
Definition head_computed (self : algorithm) (task : string) (w : Weights)
    (p p' : process) : Prop :=
  (exists t, zeroshot_weights p' !! task = Some t /\ data t = w)
  /\ files p' = <[cache_file self task := w]> (files p)
  /\ encoder_calls p' = S (encoder_calls p)
  /\ exists stores,
       events p' = events p ++ SetClassificationTask task
                               :: TorchSave (cache_file self task) :: stores
       /\ stores <> [] /\ Forall (is_store task) stores.

(** The head of [task] is in the dict and is what its cache file holds. *)
Definition head_cached (self : algorithm) (task : string) (p : process) : Prop :=
  exists t, zeroshot_weights p !! task = Some t
            /\ files p !! cache_file self task = Some (data t).

(** *** Facts about one head *)

Lemma cache_file_name_relative (base rest : string) :
  Path.has_sep base = false -> Path.startswith_sep (base +:+ "_" +:+ rest) = false.
Proof.
  destruct base as [|c base]; [reflexivity|].
  simpl. intros H. apply orb_false_iff in H. destruct H as [H _]. exact H.
Qed.

Lemma cache_file_as_specified (self : algorithm) (task : string) :
  cache_dir self <> ""%string -> Path.endswith_sep (cache_dir self) = false ->
  cache_file self task = spec_cache_file self task.
Proof.
  intros Hne Hend. unfold cache_file, spec_cache_file, Path.join.
  rewrite cache_file_name_relative by apply Path.basename_no_sep.
  apply String.eqb_neq in Hne. rewrite Hne, Hend. reflexivity.
Qed.

Lemma keep_head_spec (self : algorithm) (task : string) (t : tensor) (p : process) :
  head_kept task (data t) p (keep_head self task t p).
Proof.
  unfold keep_head. destruct (_fabric self) as [d|].
  - simpl. rewrite lookup_insert_eq. unfold to_device.
    destruct (decide (tensor_device t = d)) as [Hd|Hd]; simpl.
    + split; [exists t; split; [simpl; apply lookup_insert_eq | reflexivity]|].
      split; [intros t' Ht'; simpl; rewrite !lookup_insert_ne by congruence; reflexivity|].
      split; [reflexivity|]. split; [reflexivity|].
      exists [StoreHead task (tensor_id t); StoreHead task (tensor_id t)].
      split; [simpl; rewrite <- app_assoc; reflexivity|]. split; [discriminate|].
      repeat constructor; eexists; reflexivity.
    + split; [eexists; split; [simpl; apply lookup_insert_eq | reflexivity]|].
      split; [intros t' Ht'; simpl; rewrite !lookup_insert_ne by congruence; reflexivity|].
      split; [reflexivity|]. split; [reflexivity|].
      exists [StoreHead task (tensor_id t); StoreHead task (next_tensor_id p)].
      split; [simpl; rewrite <- app_assoc; reflexivity|]. split; [discriminate|].
      repeat constructor; eexists; reflexivity.
  - simpl. split; [exists t; split; [simpl; apply lookup_insert_eq | reflexivity]|].
    split; [intros t' Ht'; simpl; rewrite lookup_insert_ne by congruence; reflexivity|].
    split; [reflexivity|]. split; [reflexivity|].
    exists [StoreHead task (tensor_id t)].
    split; [reflexivity|]. split; [discriminate|].
    repeat constructor; eexists; reflexivity.
Qed.

Lemma build_head_hit (self : algorithm) (task : string) (p : process) (w : Weights) :
  files p !! cache_file self task = Some w ->
  exists p', build_head self task p = Ok p' /\ head_from_file self task w p p'
             /\ forall task', task' <> task ->
                  zeroshot_weights p' !! task' = zeroshot_weights p !! task'.
Proof.
  intros Hfile. unfold build_head, load_or_compute. rewrite Hfile. simpl mbind.
  eexists. split; [reflexivity|].
  match goal with |- context [keep_head self task ?t ?q] =>
    destruct (keep_head_spec self task t q) as (Hhead & Hother & Hfiles & Henc & stores & Hev & _ & Hst)
  end.
  split; [|exact Hother].
  split; [exact Hhead|]. split; [exact Hfiles|]. split; [exact Henc|].
  exists stores. split; [|exact Hst]. rewrite Hev. simpl.
  rewrite <- app_assoc. reflexivity.
Qed.

Lemma build_head_miss (self : algorithm) (task : string) (p : process)
    (classnames : Classnames) (templates : Templates) :
  files p !! cache_file self task = None ->
  get_classnames_and_templates task = Ok (classnames, templates) ->
  exists p', build_head self task p = Ok p'
             /\ head_computed self task
                  (classifier_weights (pretrained_path self) classnames templates) p p'
             /\ forall task', task' <> task ->
                  zeroshot_weights p' !! task' = zeroshot_weights p !! task'.
Proof.
  intros Hfile Hreg. unfold build_head, load_or_compute. rewrite Hfile, Hreg.
  simpl mbind. eexists. split; [reflexivity|].
  match goal with |- context [keep_head self task ?t ?q] =>
    destruct (keep_head_spec self task t q) as (Hhead & Hother & Hfiles & Henc & stores & Hev & Hne & Hst)
  end.
  split; [|exact Hother].
  split; [exact Hhead|]. split; [exact Hfiles|]. split; [exact Henc|].
  exists stores. split; [|split; assumption]. rewrite Hev. simpl.
  rewrite <- !app_assoc. reflexivity.
Qed.

Lemma build_head_unknown_task (self : algorithm) (task : string) (p : process)
    (e : py_error) :
  files p !! cache_file self task = None ->
  get_classnames_and_templates task = Raise e ->
  build_head self task p = Raise e.
Proof.
  intros Hfile Hreg. unfold build_head, load_or_compute. rewrite Hfile, Hreg.
  reflexivity.
Qed.

(** C4: the cache file of a task is the path joined from the cache
    directory and [{basename}_{task}_zeroshot_weights.pt], which is
    [{cache_dir}/{basename}_{task}_zeroshot_weights.pt] for a cache directory
    written without a trailing separator; when the file exists the head is
    loaded from it, no file changes and the text encoder is not invoked;
    when it does not, the head is computed from the task's classnames and
    templates by one pass of the encoder and saved at that path before it is
    stored in [zeroshot_weights]. *)
Theorem build_head_uses_cache (self : algorithm) (task : string) (p : process) :
  (cache_dir self <> ""%string -> Path.endswith_sep (cache_dir self) = false ->
   cache_file self task = spec_cache_file self task)
  /\ (forall w, files p !! cache_file self task = Some w ->
        exists p', build_head self task p = Ok p' /\ head_from_file self task w p p')
  /\ (forall classnames templates,
        files p !! cache_file self task = None ->
        get_classnames_and_templates task = Ok (classnames, templates) ->
        exists p', build_head self task p = Ok p'
                   /\ head_computed self task
                        (classifier_weights (pretrained_path self) classnames templates)
                        p p').
Proof.
  split; [apply cache_file_as_specified|]. split.
  - intros w Hfile. destruct (build_head_hit self task p w Hfile) as (p' & Hb & Hh & _).
    eauto.
  - intros cn tp Hfile Hreg.
    destruct (build_head_miss self task p cn tp Hfile Hreg) as (p' & Hb & Hh & _).
    eauto.
Qed.

(** *** Facts about the heads of a whole pool *)

Lemma build_head_cached (self : algorithm) (task : string) (p p' : process) :
  build_head self task p = Ok p' ->
  head_cached self task p'
  /\ (forall task', task' <> task ->
        zeroshot_weights p' !! task' = zeroshot_weights p !! task')
  /\ files p ⊆ files p'.
Proof.
  intros Hb. destruct (files p !! cache_file self task) as [w|] eqn:Hfile.
  - destruct (build_head_hit self task p w Hfile)
      as (q & Hq & ((t & Ht & Hd) & Hfiles & _) & Hother).
    rewrite Hq in Hb. injection Hb as <-.
    split; [|split; [exact Hother | rewrite Hfiles; reflexivity]].
    exists t. split; [exact Ht|]. rewrite Hfiles, Hd. exact Hfile.
  - destruct (get_classnames_and_templates task) as [[cn tp]|e] eqn:Hreg.
    + destruct (build_head_miss self task p cn tp Hfile Hreg)
        as (q & Hq & ((t & Ht & Hd) & Hfiles & _) & Hother).
      rewrite Hq in Hb. injection Hb as <-.
      split; [|split; [exact Hother|]].
      * exists t. split; [exact Ht|]. rewrite Hfiles, Hd. apply lookup_insert_eq.
      * rewrite Hfiles. apply insert_subseteq. exact Hfile.
    + rewrite (build_head_unknown_task self task p e Hfile Hreg) in Hb. discriminate.
Qed.

Lemma build_heads_cached (self : algorithm) (tasks : list string) :
  forall p p', build_heads self tasks p = Ok p' ->
    (forall task, task ∈ tasks -> head_cached self task p')
    /\ (forall task, task ∉ tasks ->
          zeroshot_weights p' !! task = zeroshot_weights p !! task)
    /\ files p ⊆ files p'.
Proof.
  induction tasks as [|task rest IH]; intros p p' Hb; simpl in Hb.
  - injection Hb as <-. split; [|split; [reflexivity | reflexivity]].
    intros task Hin. apply elem_of_nil in Hin. contradiction.
  - destruct (build_head self task p) as [p1|e] eqn:H1; [|discriminate].
    simpl in Hb.
    destruct (build_head_cached self task p p1 H1) as (Hhead & Hother & Hsub1).
    destruct (IH p1 p' Hb) as (Hrest & Hframe & Hsub2).
    split; [|split].
    + intros task' Hin. apply elem_of_cons in Hin.
      destruct (decide (task' ∈ rest)) as [Hr|Hr]; [apply Hrest, Hr|].
      destruct Hin as [->|Hin]; [|contradiction].
      destruct Hhead as (t & Ht & Hfile). exists t. split.
      * rewrite (Hframe task Hr). exact Ht.
      * apply (lookup_weaken _ _ _ _ Hfile Hsub2).
    + intros task' Hnot. rewrite Hframe.
      * apply Hother. intros ->. apply Hnot. left.
      * intros Hin. apply Hnot. right. exact Hin.
    + etransitivity; eassumption.
Qed.



(** Building again is not a lookup: the head is read from its file into a
    tensor that did not exist before, without a pass of the encoder. *)
Lemma rebuild_reloads (self : algorithm) (task : string) (p : process) (w : Weights) :
  _fabric self = None ->
  files p !! cache_file self task = Some w ->
  exists p', build_head self task p = Ok p'
             /\ zeroshot_weights p' !! task = Some (Tensor (next_tensor_id p) Cpu w)
             /\ encoder_calls p' = encoder_calls p.
Proof.
  intros Hfab Hfile. unfold build_head, load_or_compute, keep_head.
  rewrite Hfile, Hfab. simpl. eexists. split; [reflexivity|].
  split; [apply lookup_insert_eq | reflexivity].
Qed.

(** C10: the dict of heads belongs to the class.  What instance [a] stores
    in [on_test_time_adaptation_start] is what instance [b] reads, and when
    [b] then builds its own heads, [a] reads the heads of [b]: those held by
    the cache files of [b]'s backbone. *)
Theorem zeroshot_weights_shared (a b : algorithm) (p p1 : process) :
  on_test_time_adaptation_start a p = Ok p1 ->
  (forall task, task ∈ model_names a ->
     exists t, fst (lookup_head a task p1) = Ok t
               /\ fst (lookup_head b task p1) = Ok t
               /\ files p1 !! cache_file a task = Some (data t))
  /\ (forall p2, on_test_time_adaptation_start b p1 = Ok p2 ->
      forall task, task ∈ model_names b ->
        exists t, fst (lookup_head a task p2) = Ok t
                  /\ fst (lookup_head b task p2) = Ok t
                  /\ files p2 !! cache_file b task = Some (data t)).
Proof.
  intros Ha. split.
  - intros task Hin.
    destruct (build_heads_cached a (model_names a) p p1 Ha) as (Hheads & _).
    destruct (Hheads task Hin) as (t & Ht & Hfile).
    exists t. unfold lookup_head. rewrite Ht. auto.
  - intros p2 Hb task Hin.
    destruct (build_heads_cached b (model_names b) p1 p2 Hb) as (Hheads & _).
    destruct (Hheads task Hin) as (t & Ht & Hfile).
    exists t. unfold lookup_head. rewrite Ht. auto.
Qed.

End Heads.

(** *** Two instances over one cache directory

    Weights are named by strings; the registry knows two tasks and hands
    out the task name as its classnames; the classifier names its weights
    after the backbone and the classnames. *)

Local Open Scope string_scope.

Definition toy_registry (task : string) : result (string * unit) :=
  if decide (task = "svhn" \/ task = "mnist") then Ok (task, tt) else Raise KeyError.

Definition toy_classifier (path classnames : string) (_ : unit) : string :=
  Path.basename path +:+ ":" +:+ classnames.

Definition base_patch32 : algorithm :=
  {| cache_dir := "outputs/cache";
     pretrained_path := "openai/clip-vit-base-patch32";
     model_names := ["svhn"; "mnist"];
     _fabric := None |}.

Definition large_patch14 : algorithm :=
  {| cache_dir := "outputs/cache";
     pretrained_path := "openai/clip-vit-large-patch14";
     model_names := ["svhn"];
     _fabric := Some Accelerator |}.

(** A fresh process in which the head of svhn for the first backbone has
    been cached by an earlier run. *)
Definition fresh_process : process (Weights := string) :=
  {| files := {[ "outputs/cache/clip-vit-base-patch32_svhn_zeroshot_weights.pt"
                 := "clip-vit-base-patch32:svhn" ]};
     zeroshot_weights := ∅;
     next_tensor_id := 0;
     encoder_calls := 0;
     events := [] |}.

Definition toy_start := on_test_time_adaptation_start toy_registry toy_classifier.

Lemma build_head_uses_cache_svhn_mnist :
  cache_file base_patch32 "mnist"
    = "outputs/cache/clip-vit-base-patch32_mnist_zeroshot_weights.pt"
  /\ (exists p', build_head toy_registry toy_classifier base_patch32 "svhn" fresh_process = Ok p'
                 /\ encoder_calls p' = 0%nat /\ files p' = files fresh_process)
  /\ (exists p', build_head toy_registry toy_classifier base_patch32 "mnist" fresh_process = Ok p'
                 /\ encoder_calls p' = 1%nat
                 /\ files p' !! "outputs/cache/clip-vit-base-patch32_mnist_zeroshot_weights.pt"
                    = Some "clip-vit-base-patch32:mnist").
Proof.
  destruct (build_head_uses_cache toy_registry toy_classifier base_patch32 "svhn" fresh_process)
    as (_ & Hhit & _).
  destruct (build_head_uses_cache toy_registry toy_classifier base_patch32 "mnist" fresh_process)
    as (Hpath & _ & Hmiss).
  split; [|split].
  - rewrite Hpath; [reflexivity | discriminate | reflexivity].
  - destruct (Hhit "clip-vit-base-patch32:svhn") as (p' & Hb & _ & Hfiles & Henc & _);
      [vm_compute; reflexivity|].
    exists p'. auto.
  - destruct (Hmiss "mnist" tt) as (p' & Hb & _ & Hfiles & Henc & _);
      [vm_compute; reflexivity | reflexivity |].
    exists p'. split; [exact Hb|]. split; [exact Henc|].
    rewrite Hfiles, Hpath; [|discriminate | reflexivity].
    apply lookup_insert_eq.
Defined.


Lemma zeroshot_weights_shared_two_backbones :
  exists p1 p2,
    toy_start base_patch32 fresh_process = Ok p1
    /\ toy_start large_patch14 p1 = Ok p2
    /\ (exists t, fst (lookup_head large_patch14 "svhn" p1) = Ok t
                  /\ data t = "clip-vit-base-patch32:svhn")
    /\ (exists t, fst (lookup_head base_patch32 "svhn" p2) = Ok t
                  /\ data t = "clip-vit-large-patch14:svhn").
Proof.
  destruct (toy_start base_patch32 fresh_process) as [p1|e] eqn:Ha;
    [|vm_compute in Ha; discriminate Ha].
  destruct (toy_start large_patch14 p1) as [p2|e] eqn:Hb;
    [|vm_compute in Ha; injection Ha as <-; vm_compute in Hb; discriminate Hb].
  destruct (zeroshot_weights_shared toy_registry toy_classifier
              base_patch32 large_patch14 fresh_process p1 Ha) as (Hseen & Hover).
  destruct (Hseen "svhn" ltac:(left)) as (t1 & _ & Ht1 & Hf1).
  destruct (Hover p2 Hb "svhn" ltac:(left)) as (t2 & Ht2 & _ & Hf2).
  exists p1, p2. split; [reflexivity|]. split; [exact Hb|].
  vm_compute in Ha. injection Ha as <-.
  vm_compute in Hb. injection Hb as <-.
  vm_compute in Hf1. injection Hf1 as Hd1.
  vm_compute in Hf2. injection Hf2 as Hd2.
  split; [exists t1 | exists t2]; (split; [assumption | symmetry; assumption]).
Defined.

End ZeroShotCache.

(** ** The optimizer of the adaptation loop *)

Module Optimizer.

Local Open Scope nat_scope.

Section Adam.
(** Parameter values, gradients and the per-parameter state of Adam are
    abstract.  [gradient store step_idx i] is the gradient that the forward
    and backward pass of step [step_idx] produce for parameter [i] of the
    model whose parameters are [store], if the parameter takes part in the
    loss; [adam_update] is the update rule of [torch.optim.Adam]. *)
Context {Value Grad AdamState : Type}.
(** An [nn.Parameter]; the position of a parameter in [model.parameters()]
    is its identity. *)
Record parameter : Type := NNParameter {
  value : Value;
  requires_grad : bool;
  grad : option Grad
}.

Variable gradient : list parameter -> Z -> nat -> option Grad.
Variable accumulate_grad : Grad -> Grad -> Grad.
Variable adam_update : Value -> Grad -> option AdamState -> Value * AdamState.

Record optimizer : Type := Optimizer {
  param_group : list nat;
  state : gmap nat AdamState
}.

(** [module.requires_grad_(flag)], as line 87 applies it to the visual
    projection. *)
Definition requires_grad_ (flag : bool) (params : list parameter) : list parameter :=
  map (fun p => {| value := value p; requires_grad := flag; grad := grad p |}) params.

(** Lines 201-203: [Adam([p for p in model.parameters() if p.requires_grad])]. *)
Definition trainable (params : list parameter) (i : nat) : bool :=
  match params !! i with
  | Some p => requires_grad p
  | None => false
  end.

Definition adam (params : list parameter) : optimizer :=
  {| param_group := List.filter (trainable params) (seq 0 (length params));
     state := ∅ |}.

(** [optimizer.zero_grad()]: the gradients of the parameters of the
    optimizer are reset. *)
Definition zero_grad (opt : optimizer) (store : list parameter) : list parameter :=
  fold_left
    (fun st i => alter (fun p => {| value := value p;
                                    requires_grad := requires_grad p;
                                    grad := None |}) i st)
    (param_group opt) store.

(** [fabric.backward(losses)]: autograd accumulates a gradient into every
    parameter that requires one, and into no other. *)
Definition backward (step_idx : Z) (store : list parameter) : list parameter :=
  imap (fun i p =>
          if requires_grad p then
            match gradient store step_idx i with
            | Some g =>
                {| value := value p; requires_grad := true;
                   grad := Some (match grad p with
                                 | Some g0 => accumulate_grad g0 g
                                 | None => g
                                 end) |}
            | None => p
            end
          else p) store.

(** [optimizer.step()]: each parameter of the optimizer that has a gradient
    is updated in place. *)
Definition update_parameter (i : nat) (acc : list parameter * gmap nat AdamState)
  : list parameter * gmap nat AdamState :=
  let '(store, st) := acc in
  match store !! i with
  | Some p =>
      match grad p with
      | Some g =>
          let '(v, s) := adam_update (value p) g (st !! i) in
          (<[i := {| value := v; requires_grad := requires_grad p; grad := grad p |}]> store,
           <[i := s]> st)
      | None => (store, st)
      end
  | None => (store, st)
  end.

Definition step (opt : optimizer) (store : list parameter) : optimizer * list parameter :=
  let '(store', st') :=
    fold_left (fun acc i => update_parameter i acc) (param_group opt) (store, state opt) in
  ({| param_group := param_group opt; state := st' |}, store').

(** Lines 214-216 of one iteration. *)
Definition train_step (step_idx : Z) (acc : optimizer * list parameter)
  : optimizer * list parameter :=
  let '(opt, store) := acc in
  step opt (backward step_idx (zero_grad opt store)).

(** Lines 201-216: the optimizer is built once, then the steps follow. *)
Definition adaptation (params : list parameter) (max_steps : Z)
  : optimizer * list parameter :=
  fold_left (fun acc step_idx => train_step step_idx acc)
            (py_range max_steps) (adam params, params).

(** Parameters [i] of two stores agree in everything but value and grad. *)
Definition same_flags (s1 s2 : list parameter) : Prop :=
  length s1 = length s2
  /\ forall i p1 p2, s1 !! i = Some p1 -> s2 !! i = Some p2 ->
       requires_grad p1 = requires_grad p2.

(** Frozen parameters are left as they are. *)
Definition frozen_kept (s1 s2 : list parameter) : Prop :=
  forall i p, s1 !! i = Some p -> requires_grad p = false -> s2 !! i = Some p.

(** The store [store] of a running adaptation is the list [params] the
    optimizer was built over, up to the values and gradients of trainable
    parameters. *)
Definition tracks (params store : list parameter) : Prop :=
  length store = length params
  /\ forall i p, params !! i = Some p ->
       exists q, store !! i = Some q
                 /\ requires_grad q = requires_grad p
                 /\ (requires_grad p = false -> q = p).

(** *** The frame of a step *)

Lemma param_group_adam (params : list parameter) (i : nat) :
  In i (param_group (adam params)) <-> trainable params i = true.
Proof.
  unfold adam. simpl. rewrite List.filter_In, in_seq. split; [tauto|].
  intros Ht. split; [|exact Ht]. unfold trainable in Ht.
  destruct (params !! i) as [p|] eqn:Hp; [|discriminate].
  apply lookup_lt_Some in Hp. lia.
Qed.

Lemma tracks_refl (params : list parameter) : tracks params params.
Proof. split; [reflexivity|]. intros i p Hp. exists p. auto. Qed.

Lemma tracks_update (params store : list parameter) (i : nat)
    (f : parameter -> parameter) :
  trainable params i = true ->
  (forall q, requires_grad (f q) = requires_grad q) ->
  tracks params store -> tracks params (alter f i store).
Proof.
  intros Ht Hf [Hlen Htr]. split; [rewrite length_alter; exact Hlen|].
  intros j p Hp. destruct (Htr j p Hp) as (q & Hq & Hflag & Hfrozen).
  destruct (decide (i = j)) as [->|Hne].
  - exists (f q). rewrite list_lookup_alter_eq, Hq. split; [reflexivity|].
    split; [rewrite Hf; exact Hflag|].
    intros Hfalse. unfold trainable in Ht. rewrite Hp in Ht. congruence.
  - exists q. rewrite list_lookup_alter_ne by exact Hne. auto.
Qed.

Lemma zero_grad_tracks (params store : list parameter) (opt : optimizer) :
  (forall i, In i (param_group opt) -> trainable params i = true) ->
  tracks params store -> tracks params (zero_grad opt store).
Proof.
  unfold zero_grad. generalize (param_group opt) as l. intros l. revert store.
  induction l as [|i l IH]; intros store Hl Htr; simpl; [exact Htr|].
  apply IH; [intros j Hj; apply Hl; right; exact Hj|].
  apply tracks_update; [apply Hl; left; reflexivity | reflexivity | exact Htr].
Qed.

Lemma backward_tracks (params store : list parameter) (step_idx : Z) :
  tracks params store -> tracks params (backward step_idx store).
Proof.
  intros [Hlen Htr]. unfold backward. split; [rewrite length_imap; exact Hlen|].
  intros i p Hp. destruct (Htr i p Hp) as (q & Hq & Hflag & Hfrozen).
  rewrite list_lookup_imap, Hq. simpl.
  destruct (requires_grad q) eqn:Hrq.
  - destruct (gradient store step_idx i) as [g|].
    + eexists. split; [reflexivity|]. split; [exact Hflag|].
      intros Hfalse. congruence.
    + exists q. rewrite Hrq. auto.
  - exists q. rewrite Hrq. auto.
Qed.

Lemma update_parameter_tracks (params : list parameter) (i : nat)
    (acc : list parameter * gmap nat AdamState) :
  trainable params i = true ->
  tracks params (fst acc) -> tracks params (fst (update_parameter i acc)).
Proof.
  intros Ht Htr. destruct acc as [store st]. unfold update_parameter. simpl in Htr.
  destruct (store !! i) as [p|] eqn:Hp; [|exact Htr].
  destruct (grad p) as [g|] eqn:Hg; [|exact Htr].
  destruct (adam_update (value p) g (st !! i)) as [v s0]. simpl.
  replace (<[i := {| value := v; requires_grad := requires_grad p; grad := Some g |}]> store)
    with (alter (fun q => {| value := v; requires_grad := requires_grad p;
                             grad := Some g |}) i store).
  - destruct Htr as [Hlen Htr]. split; [rewrite length_alter; exact Hlen|].
    intros j p0 Hp0. destruct (Htr j p0 Hp0) as (q & Hq & Hflag & Hfrozen).
    destruct (decide (i = j)) as [->|Hne].
    + eexists. rewrite list_lookup_alter_eq, Hq. split; [reflexivity|].
      assert (q = p) by congruence. subst q. split; [exact Hflag|].
      intros Hfalse. unfold trainable in Ht. rewrite Hp0 in Ht. congruence.
    + exists q. rewrite list_lookup_alter_ne by exact Hne. auto.
  - apply list_eq. intros j. destruct (decide (i = j)) as [->|Hne].
    + rewrite list_lookup_alter_eq, Hp, list_lookup_insert_eq; [reflexivity|].
      apply lookup_lt_Some in Hp. exact Hp.
    + rewrite list_lookup_alter_ne, list_lookup_insert_ne by exact Hne. reflexivity.
Qed.

Lemma step_tracks (params store : list parameter) (opt : optimizer) :
  (forall i, In i (param_group opt) -> trainable params i = true) ->
  tracks params store ->
  tracks params (snd (step opt store))
  /\ param_group (fst (step opt store)) = param_group opt.
Proof.
  intros Hl Htr. unfold step.
  assert (H : tracks params
                (fst (fold_left (fun acc i => update_parameter i acc)
                                (param_group opt) (store, state opt)))).
  { revert Hl. generalize (param_group opt) as l. intros l.
    change store with (fst (store, state opt)) in Htr.
    revert Htr. generalize (store, state opt) as acc. intros acc Htr. revert acc Htr.
    induction l as [|i l IH]; intros acc Htr Hl; simpl; [exact Htr|].
    apply IH; [|intros j Hj; apply Hl; right; exact Hj].
    apply update_parameter_tracks; [apply Hl; left; reflexivity | exact Htr]. }
  destruct (fold_left _ _ _) as [store' st']. simpl in *. auto.
Qed.

Lemma adaptation_tracks (params : list parameter) (steps : list Z) :
  forall acc,
    param_group (fst acc) = param_group (adam params) ->
    tracks params (snd acc) ->
    let acc' := fold_left (fun a step_idx => train_step step_idx a) steps acc in
    param_group (fst acc') = param_group (adam params) /\ tracks params (snd acc').
Proof.
  induction steps as [|k steps IH]; intros acc Hg Htr; simpl; [auto|].
  apply IH; destruct acc as [opt store]; simpl in *.
  - destruct (step_tracks params (backward k (zero_grad opt store)) opt) as [_ Hpg].
    + intros i Hi. rewrite Hg in Hi. apply param_group_adam, Hi.
    + apply backward_tracks, zero_grad_tracks; [|exact Htr].
      intros i Hi. rewrite Hg in Hi. apply param_group_adam, Hi.
    + rewrite Hpg. exact Hg.
  - apply step_tracks.
    + intros i Hi. rewrite Hg in Hi. apply param_group_adam, Hi.
    + apply backward_tracks, zero_grad_tracks; [|exact Htr].
      intros i Hi. rewrite Hg in Hi. apply param_group_adam, Hi.
Qed.

Lemma requires_grad_false_frozen (params : list parameter) (i : nat) (p : parameter) :
  requires_grad_ false params !! i = Some p -> requires_grad p = false.
Proof.
  unfold requires_grad_. revert i. induction params as [|q params IH]; intros [|i] H; simpl in H;
    try discriminate H.
  - injection H as <-. reflexivity.
  - apply (IH i H).
Qed.

(** C8: the optimizer is built over exactly the parameters that require a
    gradient, and after any number of steps of the loop every parameter
    that does not (the frozen base, expert and projection weights) is the
    object it was, value and all, while every parameter keeps its
    [requires_grad] flag: a step changes trainable parameters only. *)
Theorem adaptation_changes_trainable_only (params : list parameter) (max_steps : Z) :
  (forall i, In i (param_group (adam params)) <->
             exists p, params !! i = Some p /\ requires_grad p = true)
  /\ param_group (fst (adaptation params max_steps)) = param_group (adam params)
  /\ frozen_kept params (snd (adaptation params max_steps))
  /\ same_flags params (snd (adaptation params max_steps)).
Proof.
  split.
  { intros i. rewrite param_group_adam. unfold trainable.
    destruct (params !! i) as [p|]; split.
    - intros H. eauto.
    - intros (q & [= <-] & H). exact H.
    - discriminate.
    - intros (q & H & _). discriminate. }
  destruct (adaptation_tracks params (py_range max_steps) (adam params, params)
              eq_refl (tracks_refl params)) as [Hg [Hlen Htr]].
  fold (adaptation params max_steps) in Hg, Hlen, Htr.
  split; [exact Hg|]. split.
  - intros i p Hp Hfrozen. destruct (Htr i p Hp) as (q & Hq & _ & Heq).
    rewrite Hq, (Heq Hfrozen). reflexivity.
  - split; [symmetry; exact Hlen|].
    intros i p1 p2 Hp1 Hp2. destruct (Htr i p1 Hp1) as (q & Hq & Hflag & _).
    rewrite Hq in Hp2. injection Hp2 as <-. symmetry. exact Hflag.
Qed.

End Adam.

(** Three parameters: a mixing coefficient, a frozen base weight, and a
    projection weight frozen by [requires_grad_].  Every gradient is 1 and a
    step subtracts the gradient. *)
Definition toy_parameters : list (parameter (Value := Z) (Grad := Z)) :=
  [ {| value := 3%Z; requires_grad := true; grad := None |};
    {| value := 10%Z; requires_grad := false; grad := None |} ]
  ++ requires_grad_ false [ {| value := 7%Z; requires_grad := true; grad := None |} ].

Definition toy_adaptation (max_steps : Z) :=
  adaptation (AdamState := unit) (fun _ _ _ => Some 1%Z) Z.add
             (fun v g _ => ((v - g)%Z, tt)) toy_parameters max_steps.

Example toy_adaptation_three_steps :
  map value (snd (toy_adaptation 3)) = [0%Z; 10%Z; 7%Z]
  /\ param_group (fst (toy_adaptation 3)) = [0].
Proof. split; reflexivity. Qed.

End Optimizer.

(** ** [CLIPTaskWiseAdaMergingAlgorithm.compute_logits] *)

Module Logits.

Local Open Scope R_scope.

(** Floating-point numbers are idealised: a finite float is the real number
    it stands for, and every other float ([nan], [inf], [-inf]) is
    [NonFinite].  A sum or a product with a non-finite operand is
    non-finite, and so is the quotient of a finite number by zero. *)
Inductive num : Type :=
  | Finite (r : R)
  | NonFinite.

Definition nadd (x y : num) : num :=
  match x, y with
  | Finite a, Finite b => Finite (a + b)
  | _, _ => NonFinite
  end.

Definition nmul (x y : num) : num :=
  match x, y with
  | Finite a, Finite b => Finite (a * b)
  | _, _ => NonFinite
  end.

(** [x / n] for finite [x] and [n]. *)
Definition fdiv (x n : R) : num :=
  if Req_dec_T n 0 then NonFinite else Finite (x / n).

(** A number lies in the closed interval [[lo, hi]]; no comparison holds
    of a non-finite number. *)
Definition within (lo hi : R) (x : num) : Prop :=
  match x with
  | Finite r => lo <= r <= hi
  | NonFinite => False
  end.

(** A two-dimensional tensor: its shape and its entries. *)
Record tensor (X : Type) : Type := Tensor2 {
  nrows : nat;
  ncols : nat;
  entry : nat -> nat -> X
}.
Arguments Tensor2 {X} nrows ncols entry.
Arguments nrows {X} t.
Arguments ncols {X} t.
Arguments entry {X} t i j.

Fixpoint rsum (f : nat -> R) (n : nat) : R :=
  match n with
  | O => 0
  | S m => rsum f m + f m
  end.

Fixpoint nsum (f : nat -> num) (n : nat) : num :=
  match n with
  | O => Finite 0
  | S m => nadd (nsum f m) (f m)
  end.

Definition finite (x : tensor R) : tensor num :=
  Tensor2 (nrows x) (ncols x) (fun i j => Finite (entry x i j)).

(** [x.t()]. *)
Definition t {X : Type} (x : tensor X) : tensor X :=
  Tensor2 (ncols x) (nrows x) (fun i j => entry x j i).

(** [torch.matmul(a, b)] on two-dimensional tensors. *)
Definition matmul (a b : tensor num) : result (tensor num) :=
  if decide (ncols a = nrows b) then
    Ok (Tensor2 (nrows a) (ncols b)
          (fun i j => nsum (fun k => nmul (entry a i k) (entry b k j)) (ncols a)))
  else Raise RuntimeError.

(** [x * s] for a scalar [s]. *)
Definition scale (x : tensor num) (s : R) : tensor num :=
  Tensor2 (nrows x) (ncols x) (fun i j => nmul (entry x i j) (Finite s)).

(** An [nn.Linear] without bias, of weight [w] (out_features rows,
    in_features columns), applied to the rows of [x]. *)
Definition linear (w x : tensor R) : result (tensor R) :=
  if decide (ncols x = ncols w) then
    Ok (Tensor2 (nrows x) (nrows w)
          (fun i j => rsum (fun k => entry x i k * entry w j k) (ncols x)))
  else Raise RuntimeError.

(** [x.norm(p=2, dim=-1, keepdim=True)]: the norm of row [i]. *)
Definition norm (x : tensor R) (i : nat) : R :=
  sqrt (rsum (fun k => entry x i k * entry x i k) (ncols x)).

(** Line 122: [x / x.norm(p=2, dim=-1, keepdim=True)]. *)
Definition normalize (x : tensor R) : tensor num :=
  Tensor2 (nrows x) (ncols x) (fun i k => fdiv (entry x i k) (norm x i)).


Section ComputeLogits.
Context {Images Labels : Type}.
(** The attributes of [self] that [compute_logits] reads. *)
Variable zeroshot_weights : gmap string (tensor R).
Variable visual_projection : tensor R.
Variable logit_scale : R.

Definition logit_scale_exp : R := exp logit_scale.

(** Lines 114-130; [module images] is [module(images)[1]], the pooled
    output. *)
Definition compute_logits (module : Images -> tensor R)
    (batch : Images * Labels) (task : string) : result (tensor num) :=
  let '(images, _) := batch in
  match zeroshot_weights !! task with
  | None => Raise KeyError
  | Some text_embeds =>
      let image_embeds := module images in
      image_embeds ← linear visual_projection image_embeds;
      let image_embeds := normalize image_embeds in
      product ← matmul (finite text_embeds) (t image_embeds);
      let logits_per_text := scale product logit_scale_exp in
      let logits_per_image := t logits_per_text in
      Ok logits_per_image
  end.



End ComputeLogits.

(** One image, one feature, one class; the projection is the identity and
    the head is the unit vector. *)
Definition one_by_one (r : R) : tensor R := Tensor2 1 1 (fun _ _ => r).


(** A model whose pooled output for the image is [r]. *)
Definition constant_module (r : R) (_ : unit) : tensor R := one_by_one r.

(** *** Sums, norms and the normalisation *)


Lemma rsum_squares_nonneg (f : nat -> R) (n : nat) :
  0 <= rsum (fun k => f k * f k) n.
Proof.
  induction n as [|n IH]; simpl; [lra|].
  pose proof (Rle_0_sqr (f n)) as H. unfold Rsqr in H. lra.
Qed.

Lemma rsum_squares_zero (f : nat -> R) (n : nat) :
  rsum (fun k => f k * f k) n = 0 <-> forall k, (k < n)%nat -> f k = 0.
Proof.
  induction n as [|n IH]; simpl.
  - split; [intros _ k Hk; lia | reflexivity].
  - pose proof (rsum_squares_nonneg f n) as Hs.
    pose proof (Rle_0_sqr (f n)) as Hq. unfold Rsqr in Hq. split.
    + intros H k Hk.
      assert (Hn : f n * f n = 0) by lra.
      assert (Hr : rsum (fun k => f k * f k) n = 0) by lra.
      destruct (decide (k = n)) as [->|Hne].
      * apply Rmult_integral in Hn. tauto.
      * apply IH; [exact Hr | lia].
    + intros H. rewrite (proj2 IH) by (intros; apply H; lia).
      rewrite (H n) by lia. lra.
Qed.

Lemma norm_zero_iff (x : tensor R) (i : nat) :
  norm x i = 0 <-> forall k, (k < ncols x)%nat -> entry x i k = 0.
Proof.
  unfold norm. rewrite <- (rsum_squares_zero (fun k => entry x i k)). split.
  - intros H. apply sqrt_eq_0; [apply rsum_squares_nonneg | exact H].
  - intros ->. apply sqrt_0.
Qed.






Lemma fdiv_nonzero (x n : R) : n <> 0 -> fdiv x n = Finite (x / n).
Proof. intros Hn. unfold fdiv. destruct (Req_dec_T n 0); [contradiction | reflexivity]. Qed.


(** *** The logits *)




Lemma norm_one_by_one_zero : norm (one_by_one 0) 0 = 0.
Proof. apply norm_zero_iff. intros k _. reflexivity. Qed.


Lemma linear_one_by_one (r : R) :
  exists image_embeds,
    linear (one_by_one 1) (one_by_one r) = Ok image_embeds
    /\ nrows image_embeds = 1%nat /\ ncols image_embeds = 1%nat
    /\ forall i j, entry image_embeds i j = r.
Proof.
  eexists. split; [reflexivity|]. simpl. repeat split.
  intros i j. lra.
Qed.





(** A head row of norm 2, as a foreign cache file may hold it, doubles the
    bound. *)
Lemma long_head_row_logit :
  exists logits,
    compute_logits (Labels := unit) {[ "svhn"%string := one_by_one 2 ]} (one_by_one 1) 0
      (constant_module 1) (tt, tt) "svhn" = Ok logits
    /\ ~ within (- exp 0) (exp 0) (entry logits 0 0).
Proof.
  destruct (linear_one_by_one 1) as (x & Hlin & Hr & Hc & Hx).
  unfold compute_logits. rewrite lookup_singleton_eq.
  unfold constant_module. rewrite Hlin. simpl mbind.
  unfold matmul. simpl ncols. simpl nrows. rewrite Hc, decide_True by reflexivity.
  eexists. split; [reflexivity|]. simpl.
  assert (Hn : norm x 0 <> 0).
  { intros Hn. pose proof (proj1 (norm_zero_iff x 0) Hn 0%nat) as H0.
    rewrite Hc, Hx in H0. specialize (H0 ltac:(lia)). lra. }
  assert (Hnorm : norm x 0 = 1).
  { unfold norm. rewrite Hc. simpl. rewrite !Hx.
    replace (0 + 1 * 1) with 1 by lra. apply sqrt_1. }
  rewrite fdiv_nonzero by exact Hn. rewrite Hnorm, Hx. simpl.
  unfold logit_scale_exp. rewrite exp_0. lra.
Qed.

End Logits.

(** ** [DataAdaptiveWeightEnsemblingForCLIP]: the hidden size of the gate *)

Module LoadModels.

(** [dict_feature_extractor] is a [PreTrainedModel] or any [nn.Module]: it
    may have no [config], and its [config] may have no [hidden_sizes]. *)
Record feature_extractor_config : Type := Config {
  hidden_sizes : option (list Z)
}.

Record feature_extractor : Type := FeatureExtractor {
  config : option feature_extractor_config
}.

(** The options of [__init__] that [load_models] hands on, lines 83-123. *)
Record algorithm : Type := Algorithm {
  merge_mode : string;
  hidden_size : option Z;
  gate_hidden_layers : Z
}.

(** [__init__] only stores its arguments: [hidden_size=None] is accepted. *)
Definition init (merge_mode : string) (hidden_size : option Z)
    (gate_hidden_layers : Z) : result algorithm :=
  Ok {| merge_mode := merge_mode; hidden_size := hidden_size;
        gate_hidden_layers := gate_hidden_layers |}.

(** The arguments that reach the constructor of
    [DataAdaptiveWeightEnsemblingCLIPVisionModel], lines 143-160. *)
Record merging_model : Type := MergingModel {
  model_merge_mode : string;
  model_hidden_size : Z;
  model_gate_hidden_layers : Z
}.

(** [obj.config]. *)
Definition get_config (fe : feature_extractor) : result feature_extractor_config :=
  match config fe with
  | Some c => Ok c
  | None => Raise AttributeError
  end.

(** [config.hidden_sizes]. *)
Definition get_hidden_sizes (c : feature_extractor_config) : result (list Z) :=
  match hidden_sizes c with
  | Some l => Ok l
  | None => Raise AttributeError
  end.

(** [l[-1]]. *)
Definition last_item (l : list Z) : result Z :=
  match last l with
  | Some h => Ok h
  | None => Raise IndexError
  end.

(** Line 136: [dict_feature_extractor.config.hidden_sizes[-1]]. *)
Definition infer_hidden_size (fe : feature_extractor) : result Z :=
  c ← get_config fe; l ← get_hidden_sizes c; last_item l.

(** [load_models], lines 125-161, from the instantiated feature extractor
    on. *)
Definition load_models (self : algorithm) (dict_feature_extractor : feature_extractor)
  : result merging_model :=
  h ← match hidden_size self with
      | None => infer_hidden_size dict_feature_extractor
      | Some h => Ok h
      end;
  Ok {| model_merge_mode := merge_mode self;
        model_hidden_size := h;
        model_gate_hidden_layers := gate_hidden_layers self |}.


(** The error of the attribute lookup or of the indexing that failed. *)
Definition lookup_error (fe : feature_extractor) : py_error :=
  match config fe with
  | None => AttributeError
  | Some c =>
      match hidden_sizes c with
      | None => AttributeError
      | Some _ => IndexError
      end
  end.

Lemma infer_hidden_size_fails (fe : feature_extractor) :
  is_ok (infer_hidden_size fe) = false ->
  infer_hidden_size fe = Raise (lookup_error fe).
Proof.
  unfold infer_hidden_size, lookup_error, get_config, get_hidden_sizes, last_item.
  destruct (config fe) as [[[l|]]|]; simpl; try reflexivity.
  destruct (last l); simpl; [discriminate | reflexivity].
Qed.


(** Whatever the inputs, [load_models] raises no [ConfigurationError]. *)
Lemma load_models_never_configuration_error (self : algorithm) (fe : feature_extractor) :
  load_models self fe <> Raise ConfigurationError.
Proof.
  unfold load_models. destruct (hidden_size self) as [h|]; [discriminate|].
  destruct (is_ok (infer_hidden_size fe)) eqn:Hok.
  - destruct (infer_hidden_size fe); [discriminate | discriminate Hok].
  - rewrite (infer_hidden_size_fails fe Hok). unfold lookup_error.
    destruct (config fe) as [[[l|]]|]; discriminate.
Qed.

(** A supplied size is used as it is, and an inferable one is the last of
    [hidden_sizes]. *)
Lemma load_models_hidden_size (self : algorithm) (fe : feature_extractor) (l : list Z) (h : Z) :
  config fe = Some (Config (Some (l ++ [h]))) ->
  exists m, load_models self fe = Ok m
            /\ model_hidden_size m = from_option (fun x => x) h (hidden_size self).
Proof.
  intros Hc. unfold load_models, infer_hidden_size, get_config, get_hidden_sizes, last_item.
  rewrite Hc. destruct (hidden_size self) as [h0|]; simpl.
  - eexists. split; reflexivity.
  - rewrite last_snoc. simpl. eexists. split; reflexivity.
Qed.





End LoadModels.

(** ** The image helpers of [dawe_for_clip.py] *)

Module ImageHelpers.

Local Open Scope nat_scope.

Section Convert.
Context {Image : Type}.
(** [image.convert("RGB")]. *)
Variable convert : Image -> Image.

Set Warnings "-register-all".

(** What [convert_to_rgb] accepts: an image, or a list or tuple of what it
    accepts. *)
Inductive images : Type :=
  | Img (i : Image)
  | PyList (l : list images)
  | PyTuple (l : list images).

(** Lines 29-33: a list or a tuple becomes the list of its converted
    members. *)
Fixpoint convert_to_rgb (x : images) : images :=
  match x with
  | Img i => Img (convert i)
  | PyList l => PyList (map convert_to_rgb l)
  | PyTuple l => PyList (map convert_to_rgb l)
  end.

(** The images of a value, from left to right. *)
Fixpoint leaves (x : images) : list Image :=
  match x with
  | Img i => [i]
  | PyList l => flat_map leaves l
  | PyTuple l => flat_map leaves l
  end.

(** No tuple occurs in the value. *)
Fixpoint tuple_free (x : images) : bool :=
  match x with
  | Img _ => true
  | PyList l => forallb tuple_free l
  | PyTuple _ => false
  end.

(** The nesting of a value: how many members each sequence has. *)
Inductive nesting : Type :=
  | Leaf
  | Node (l : list nesting).

Fixpoint nesting_of (x : images) : nesting :=
  match x with
  | Img _ => Leaf
  | PyList l => Node (map nesting_of l)
  | PyTuple l => Node (map nesting_of l)
  end.

(** Induction over [images] with the members of a sequence at hand. *)
Lemma images_induction (P : images -> Prop) :
  (forall i, P (Img i)) ->
  (forall l, Forall P l -> P (PyList l)) ->
  (forall l, Forall P l -> P (PyTuple l)) ->
  forall x, P x.
Proof.
  intros Himg Hlist Htuple.
  fix IH 1. intros [i|l|l].
  - apply Himg.
  - apply Hlist. induction l as [|y l IHl]; constructor; [apply IH | exact IHl].
  - apply Htuple. induction l as [|y l IHl]; constructor; [apply IH | exact IHl].
Qed.

Lemma flat_map_leaves_convert (l : list images) :
  Forall (fun x => leaves (convert_to_rgb x) = map convert (leaves x)) l ->
  flat_map leaves (map convert_to_rgb l) = map convert (flat_map leaves l).
Proof.
  induction 1 as [|x l Hx _ IH]; simpl; [reflexivity|].
  rewrite Hx, IH, map_app. reflexivity.
Qed.

Lemma map_nesting_convert (l : list images) :
  Forall (fun x => nesting_of (convert_to_rgb x) = nesting_of x) l ->
  map nesting_of (map convert_to_rgb l) = map nesting_of l.
Proof.
  induction 1 as [|x l Hx _ IH]; simpl; [reflexivity|].
  rewrite Hx, IH. reflexivity.
Qed.

Lemma forallb_tuple_free_convert (l : list images) :
  Forall (fun x => tuple_free (convert_to_rgb x) = true) l ->
  forallb tuple_free (map convert_to_rgb l) = true.
Proof.
  induction 1 as [|x l Hx _ IH]; simpl; [reflexivity|].
  rewrite Hx, IH. reflexivity.
Qed.

Lemma convert_to_rgb_members (l : list images) :
  Forall (fun x => leaves (convert_to_rgb x) = map convert (leaves x)
                   /\ nesting_of (convert_to_rgb x) = nesting_of x
                   /\ tuple_free (convert_to_rgb x) = true) l ->
  flat_map leaves (map convert_to_rgb l) = map convert (flat_map leaves l)
  /\ map nesting_of (map convert_to_rgb l) = map nesting_of l
  /\ forallb tuple_free (map convert_to_rgb l) = true.
Proof.
  intros H. split; [|split].
  - apply flat_map_leaves_convert. revert H. apply List.Forall_impl. tauto.
  - apply map_nesting_convert. revert H. apply List.Forall_impl. tauto.
  - apply forallb_tuple_free_convert. revert H. apply List.Forall_impl. tauto.
Qed.

(** X1: [convert_to_rgb] converts every image where it stands: the images
    of the result are the converted images of the argument in the same
    order, the nesting is the argument's, and no tuple is left. *)
Theorem convert_to_rgb_keeps_structure (x : images) :
  leaves (convert_to_rgb x) = map convert (leaves x)
  /\ nesting_of (convert_to_rgb x) = nesting_of x
  /\ tuple_free (convert_to_rgb x) = true.
Proof.
  induction x as [i|l IH|l IH] using images_induction; simpl.
  - auto.
  - destruct (convert_to_rgb_members l IH) as (H1 & H2 & H3).
    rewrite H1, H2, H3. auto.
  - destruct (convert_to_rgb_members l IH) as (H1 & H2 & H3).
    rewrite H1, H2, H3. auto.
Qed.

(** X2: when converting a converted image changes nothing, converting a
    converted value changes nothing. *)
Theorem convert_to_rgb_idempotent (x : images) :
  (forall i, convert (convert i) = convert i) ->
  convert_to_rgb (convert_to_rgb x) = convert_to_rgb x.
Proof.
  intros Hc. induction x as [i|l IH|l IH] using images_induction; simpl.
  - rewrite Hc. reflexivity.
  - f_equal. rewrite map_map. apply List.map_ext_Forall. exact IH.
  - f_equal. rewrite map_map. apply List.map_ext_Forall. exact IH.
Qed.

End Convert.

(** An image is known by its mode; converting gives an RGB image. *)
Inductive mode : Type := RGB | RGBA | Grey.

Lemma convert_to_rgb_idempotent_modes :
  (forall i : mode, (fun _ => RGB) ((fun _ => RGB) i) = (fun _ : mode => RGB) i)
  /\ convert_to_rgb (fun _ => RGB)
       (convert_to_rgb (fun _ => RGB) (PyTuple [Img RGBA; PyList [Img Grey]]))
     = PyList [Img RGB; PyList [Img RGB]].
Proof.
  split; [reflexivity|].
  rewrite (convert_to_rgb_idempotent (fun _ => RGB)); reflexivity.
Defined.

Section Collate.
Context {Image : Type}.







End Collate.


End ImageHelpers.

(** ** More on [compute_logits]: errors, cosines and their bounds *)

Module LogitsFacts.
Import Logits.

Local Open Scope R_scope.






















End LogitsFacts.

(** ** More on the zero-shot heads: warm and cold starts, shared files *)

Module ZeroShotCacheFacts.
Import ZeroShotCache.

Local Open Scope nat_scope.

(** *** Strings *)

Lemma string_length_app (s1 s2 : string) :
  String.length (s1 +:+ s2) = String.length s1 + String.length s2.
Proof.
  induction s1 as [|c s1 IH]; [reflexivity|].
  rewrite Path.app_cons. simpl. rewrite IH. reflexivity.
Qed.

Lemma string_app_inv_tail (s1 s2 s : string) : s1 +:+ s = s2 +:+ s -> s1 = s2.
Proof.
  revert s2. induction s1 as [|c1 s1 IH]; intros [|c2 s2] H.
  - reflexivity.
  - apply (f_equal String.length) in H. rewrite !string_length_app in H.
    simpl in H. lia.
  - apply (f_equal String.length) in H. rewrite !string_length_app in H.
    simpl in H. lia.
  - rewrite !Path.app_cons in H. injection H as -> H. f_equal. apply IH, H.
Qed.

Lemma string_app_assoc (a x b : string) : a +:+ (x +:+ b) = (a +:+ x) +:+ b.
Proof.
  induction a as [|c a IH]; [reflexivity|].
  rewrite !Path.app_cons, IH. reflexivity.
Qed.

(** [os.path.join(a, b)] for a relative [b]: [b] behind a front that
    depends on [a] alone. *)
Lemma join_relative (a : string) :
  exists front, forall b, Path.startswith_sep b = false -> Path.join a b = front +:+ b.
Proof.
  unfold Path.join.
  destruct (String.eqb a "" || Path.endswith_sep a)%bool eqn:Ha.
  - exists a. intros b ->. reflexivity.
  - exists (a +:+ "/"). intros b ->. apply string_app_assoc.
Qed.

Section Heads.
Context {Weights Classnames Templates : Type}.
Variable get_classnames_and_templates : string -> result (Classnames * Templates).
Variable classifier_weights : string -> Classnames -> Templates -> Weights.

Local Abbreviation start :=
  (on_test_time_adaptation_start get_classnames_and_templates classifier_weights).
Local Abbreviation heads :=
  (build_heads get_classnames_and_templates classifier_weights).
Local Abbreviation head :=
  (build_head get_classnames_and_templates classifier_weights).

(** The cache file of [task] is missing. *)
Definition missing (self : algorithm) (p : process (Weights := Weights))
    (task : string) : bool :=
  match files p !! cache_file self task with
  | None => true
  | Some _ => false
  end.

(** The data of the head of [task]. *)
Definition head_data (p : process (Weights := Weights)) (task : string)
  : option Weights :=
  data <$> zeroshot_weights p !! task.

Lemma cache_file_injective (self : algorithm) (task1 task2 : string) :
  cache_file self task1 = cache_file self task2 -> task1 = task2.
Proof.
  unfold cache_file.
  set (base := Path.basename (pretrained_path self)).
  destruct (join_relative (cache_dir self)) as (front & Hjoin).
  rewrite !Hjoin by (apply cache_file_name_relative, Path.basename_no_sep).
  intros H. do 3 apply String.app_inj in H.
  apply string_app_inv_tail in H. exact H.
Qed.

(** X8: two tasks of one instance never share a cache file, whatever the
    cache directory, the backbone and the task names are. *)
Theorem distinct_tasks_distinct_files (self : algorithm) (task1 task2 : string) :
  task1 <> task2 -> cache_file self task1 <> cache_file self task2.
Proof. intros Hne H. apply Hne, (cache_file_injective self _ _ H). Qed.

(** *** Warm starts *)

Lemma build_heads_warm (self : algorithm) (tasks : list string) :
  forall p : process (Weights := Weights),
    (forall task, task ∈ tasks -> missing self p task = false) ->
    exists p', heads self tasks p = Ok p'
               /\ files p' = files p
               /\ encoder_calls p' = encoder_calls p
               /\ forall task, task ∈ tasks ->
                    exists w, files p !! cache_file self task = Some w
                              /\ head_data p' task = Some w.
Proof.
  induction tasks as [|task rest IH]; intros p Hfiles.
  - exists p. repeat split. intros task Hin. apply elem_of_nil in Hin. contradiction.
  - assert (Hhere : missing self p task = false) by (apply Hfiles; left).
    unfold missing in Hhere.
    destruct (files p !! cache_file self task) as [w|] eqn:Hfile; [|discriminate].
    destruct (build_head_hit get_classnames_and_templates classifier_weights
                self task p w Hfile)
      as (p1 & H1 & ((t & Ht & Hd) & Hf1 & He1 & _) & _).
    destruct (IH p1) as (p' & Hrest & Hf & He & Hheads).
    { intros task' Hin. unfold missing. rewrite Hf1. apply (Hfiles task'). right. exact Hin. }
    exists p'. simpl. rewrite H1. simpl. split; [exact Hrest|].
    split; [congruence|]. split; [congruence|].
    intros task' Hin. destruct (decide (task' ∈ rest)) as [Hr|Hr].
    + destruct (Hheads task' Hr) as (w' & Hw' & Hh). exists w'. rewrite <- Hf1. auto.
    + apply elem_of_cons in Hin. destruct Hin as [->|Hin]; [|contradiction].
      exists w. split; [exact Hfile|]. unfold head_data.
      destruct (build_heads_cached get_classnames_and_templates classifier_weights
                  self rest p1 p' Hrest) as (_ & Hframe & _).
      rewrite (Hframe task Hr), Ht. simpl. rewrite Hd. reflexivity.
Qed.

(** X9: when the cache file of every task of the pool exists,
    [on_test_time_adaptation_start] succeeds whatever the task registry
    knows, never runs the text encoder, writes no file, and leaves every
    head with the data of its file. *)
Theorem warm_start_reads_files (self : algorithm) (p : process (Weights := Weights)) :
  (forall task, task ∈ model_names self -> missing self p task = false) ->
  exists p', start self p = Ok p'
             /\ files p' = files p
             /\ encoder_calls p' = encoder_calls p
             /\ forall task, task ∈ model_names self ->
                  exists w, files p !! cache_file self task = Some w
                            /\ head_data p' task = Some w.
Proof. apply build_heads_warm. Qed.

Lemma started_not_missing (self : algorithm) (p p1 : process (Weights := Weights)) :
  start self p = Ok p1 ->
  forall task, task ∈ model_names self ->
    missing self p1 task = false
    /\ exists w, files p1 !! cache_file self task = Some w /\ head_data p1 task = Some w.
Proof.
  intros Hstart task Hin.
  destruct (build_heads_cached get_classnames_and_templates classifier_weights
              self (model_names self) p p1 Hstart) as (Hheads & _).
  destruct (Hheads task Hin) as (t & Ht & Hfile).
  unfold missing, head_data. rewrite Hfile, Ht. eauto.
Qed.

(** X10: a successful [on_test_time_adaptation_start] can be repeated: the
    second call succeeds without the text encoder and without writing, and
    every head has the data it had. *)
Theorem restart_keeps_heads (self : algorithm) (p p1 : process (Weights := Weights)) :
  start self p = Ok p1 ->
  exists p2, start self p1 = Ok p2
             /\ files p2 = files p1
             /\ encoder_calls p2 = encoder_calls p1
             /\ forall task, task ∈ model_names self ->
                  is_Some (head_data p1 task) /\ head_data p2 task = head_data p1 task.
Proof.
  intros Hstart.
  destruct (build_heads_warm self (model_names self) p1) as (p2 & H2 & Hf & He & Hheads).
  { intros task Hin. apply (started_not_missing self p p1 Hstart task Hin). }
  exists p2. split; [exact H2|]. split; [exact Hf|]. split; [exact He|].
  intros task Hin.
  destruct (started_not_missing self p p1 Hstart task Hin) as (_ & w & Hw & Hh1).
  destruct (Hheads task Hin) as (w' & Hw' & Hh2).
  rewrite Hh1, Hh2. split; [eauto | congruence].
Qed.

(** *** Cold starts *)

Lemma build_head_other_file (self : algorithm) (task task' : string)
    (p p1 : process (Weights := Weights)) :
  head self task p = Ok p1 -> task' <> task ->
  files p1 !! cache_file self task' = files p !! cache_file self task'.
Proof.
  intros Hb Hne.
  destruct (files p !! cache_file self task) as [w|] eqn:Hfile.
  - destruct (build_head_hit get_classnames_and_templates classifier_weights
                self task p w Hfile) as (q & Hq & (_ & Hf & _) & _).
    rewrite Hq in Hb. injection Hb as <-. rewrite Hf. reflexivity.
  - destruct (get_classnames_and_templates task) as [[cn tp]|e] eqn:Hreg.
    + destruct (build_head_miss get_classnames_and_templates classifier_weights
                  self task p cn tp Hfile Hreg) as (q & Hq & (_ & Hf & _) & _).
      rewrite Hq in Hb. injection Hb as <-. rewrite Hf.
      apply lookup_insert_ne. intros H. apply Hne. symmetry.
      apply (cache_file_injective self _ _ H).
    + rewrite (build_head_unknown_task get_classnames_and_templates classifier_weights
                 self task p e Hfile Hreg) in Hb. discriminate.
Qed.

Lemma build_head_encoder_calls (self : algorithm) (task : string)
    (p p1 : process (Weights := Weights)) :
  head self task p = Ok p1 ->
  encoder_calls p1 = encoder_calls p + (if missing self p task then 1 else 0).
Proof.
  intros Hb. unfold missing.
  destruct (files p !! cache_file self task) as [w|] eqn:Hfile.
  - destruct (build_head_hit get_classnames_and_templates classifier_weights
                self task p w Hfile) as (q & Hq & (_ & _ & He & _) & _).
    rewrite Hq in Hb. injection Hb as <-. lia.
  - destruct (get_classnames_and_templates task) as [[cn tp]|e] eqn:Hreg.
    + destruct (build_head_miss get_classnames_and_templates classifier_weights
                  self task p cn tp Hfile Hreg) as (q & Hq & (_ & _ & He & _) & _).
      rewrite Hq in Hb. injection Hb as <-. lia.
    + rewrite (build_head_unknown_task get_classnames_and_templates classifier_weights
                 self task p e Hfile Hreg) in Hb. discriminate.
Qed.

Lemma build_heads_encoder_calls (self : algorithm) (tasks : list string) :
  NoDup tasks ->
  forall p p' : process (Weights := Weights),
    heads self tasks p = Ok p' ->
    encoder_calls p' = encoder_calls p + length (List.filter (missing self p) tasks).
Proof.
  induction 1 as [|task rest Hfresh Hnd IH]; intros p p' Hb; simpl in Hb.
  - injection Hb as <-. simpl. lia.
  - destruct (head self task p) as [p1|e] eqn:H1; [|discriminate]. simpl in Hb.
    rewrite (IH p1 p' Hb), (build_head_encoder_calls self task p p1 H1).
    assert (Hsame : List.filter (missing self p1) rest = List.filter (missing self p) rest).
    { apply List.filter_ext_in. intros t Ht. unfold missing.
      rewrite (build_head_other_file self task t p p1 H1); [reflexivity|].
      intros ->. apply Hfresh. apply list_elem_of_In. exact Ht. }
    rewrite Hsame. simpl. destruct (missing self p task); simpl; lia.
Qed.

(** X11: over a pool of distinct tasks, [on_test_time_adaptation_start]
    runs the text encoder once for each task whose cache file is missing,
    and for no other; afterwards no cache file of the pool is missing. *)
Theorem start_encodes_missing_heads (self : algorithm)
    (p p' : process (Weights := Weights)) :
  NoDup (model_names self) ->
  start self p = Ok p' ->
  encoder_calls p'
    = encoder_calls p + length (List.filter (missing self p) (model_names self))
  /\ forall task, task ∈ model_names self -> missing self p' task = false.
Proof.
  intros Hnd Hstart. split.
  - apply (build_heads_encoder_calls self (model_names self) Hnd p p' Hstart).
  - intros task Hin. apply (started_not_missing self p p' Hstart task Hin).
Qed.

Lemma build_heads_computed_file (self : algorithm) (tasks : list string) :
  forall (p p' : process (Weights := Weights)) task classnames templates,
    heads self tasks p = Ok p' ->
    task ∈ tasks ->
    files p !! cache_file self task = None ->
    get_classnames_and_templates task = Ok (classnames, templates) ->
    files p' !! cache_file self task
      = Some (classifier_weights (pretrained_path self) classnames templates).
Proof.
  induction tasks as [|t0 rest IH]; intros p p' task cn tp Hb Hin Hfile Hreg.
  - apply elem_of_nil in Hin. contradiction.
  - simpl in Hb. destruct (head self t0 p) as [p1|e] eqn:H1; [|discriminate].
    simpl in Hb. destruct (decide (task = t0)) as [->|Hne].
    + destruct (build_head_miss get_classnames_and_templates classifier_weights
                  self t0 p cn tp Hfile Hreg) as (q & Hq & (_ & Hf & _) & _).
      rewrite Hq in H1. injection H1 as <-.
      destruct (build_heads_cached get_classnames_and_templates classifier_weights
                  self rest q p' Hb) as (_ & _ & Hsub).
      eapply lookup_weaken; [|exact Hsub].
      rewrite Hf. apply lookup_insert_eq.
    + apply elem_of_cons in Hin. destruct Hin as [Heq|Hin]; [contradiction|].
      apply (IH p1 p' task cn tp Hb Hin); [|exact Hreg].
      rewrite (build_head_other_file self t0 task p p1 H1 Hne). exact Hfile.
Qed.

(** X12: the cache file is named after the basename of the backbone only.
    Two instances over one cache directory whose backbones have the same
    basename name the same files; when the second starts after the first,
    for tasks the first has built, it runs no text encoder, and its heads
    hold what the first computed for its own backbone. *)
Theorem same_basename_shares_heads (a b : algorithm)
    (p p1 : process (Weights := Weights)) :
  cache_dir a = cache_dir b ->
  Path.basename (pretrained_path a) = Path.basename (pretrained_path b) ->
  start a p = Ok p1 ->
  (forall task, task ∈ model_names b -> task ∈ model_names a) ->
  (forall task, cache_file a task = cache_file b task)
  /\ exists p2, start b p1 = Ok p2
       /\ encoder_calls p2 = encoder_calls p1
       /\ forall task classnames templates,
            task ∈ model_names b ->
            files p !! cache_file a task = None ->
            get_classnames_and_templates task = Ok (classnames, templates) ->
            head_data p2 task
              = Some (classifier_weights (pretrained_path a) classnames templates).
Proof.
  intros Hdir Hbase Ha Hsub.
  assert (Hfile : forall task, cache_file a task = cache_file b task).
  { intros task. unfold cache_file. rewrite Hdir, Hbase. reflexivity. }
  split; [exact Hfile|].
  destruct (build_heads_warm b (model_names b) p1) as (p2 & H2 & _ & He & Hheads).
  { intros task Hin. unfold missing. rewrite <- Hfile.
    apply (started_not_missing a p p1 Ha task (Hsub task Hin)). }
  exists p2. split; [exact H2|]. split; [exact He|].
  intros task cn tp Hin Hnone Hreg.
  destruct (Hheads task Hin) as (w & Hw & Hh). rewrite Hh, <- Hw, <- Hfile.
  apply (build_heads_computed_file a (model_names a) p p1 task cn tp Ha
           (Hsub task Hin) Hnone Hreg).
Qed.

(** X13: [on_test_time_adaptation_start] never overwrites: every file
    that existed keeps its content, so a cache file is never refreshed, and
    the heads of tasks outside the pool stay what they were. *)
Theorem start_keeps_files_and_other_heads (self : algorithm)
    (p p' : process (Weights := Weights)) :
  start self p = Ok p' ->
  (forall file w, files p !! file = Some w -> files p' !! file = Some w)
  /\ (forall task, task ∉ model_names self ->
        zeroshot_weights p' !! task = zeroshot_weights p !! task).
Proof.
  intros Hstart.
  destruct (build_heads_cached get_classnames_and_templates classifier_weights
              self (model_names self) p p' Hstart) as (_ & Hframe & Hsub).
  split; [|exact Hframe].
  intros file w Hw. eapply lookup_weaken; [exact Hw | exact Hsub].
Qed.

End Heads.

Local Open Scope string_scope.

(** A fine-tuned copy of the backbone of [base_patch32], kept under another
    directory. *)
Definition finetuned_patch32 : algorithm :=
  {| cache_dir := "outputs/cache";
     pretrained_path := "checkpoints/finetuned/clip-vit-base-patch32";
     model_names := ["mnist"];
     _fabric := None |}.

(** A process in which nothing has been cached. *)
Definition cold_process : process (Weights := string) :=
  {| files := ∅; zeroshot_weights := ∅; next_tensor_id := 0;
     encoder_calls := 0; events := [] |}.

Lemma distinct_tasks_distinct_files_svhn_mnist :
  "svhn" <> "mnist"
  /\ cache_file base_patch32 "svhn" <> cache_file base_patch32 "mnist".
Proof.
  split; [discriminate|].
  apply (distinct_tasks_distinct_files base_patch32). discriminate.
Defined.

Lemma warm_start_reads_files_unknown_task :
  exists p',
    toy_start {| cache_dir := "outputs/cache";
                 pretrained_path := "openai/clip-vit-base-patch32";
                 model_names := ["svhn"]; _fabric := None |}
              fresh_process = Ok p'
    /\ encoder_calls p' = 0%nat
    /\ head_data p' "svhn" = Some "clip-vit-base-patch32:svhn".
Proof.
  destruct (warm_start_reads_files toy_registry toy_classifier
              {| cache_dir := "outputs/cache";
                 pretrained_path := "openai/clip-vit-base-patch32";
                 model_names := ["svhn"]; _fabric := None |} fresh_process)
    as (p' & Hstart & _ & Henc & Hheads).
  { intros task Hin. apply list_elem_of_singleton in Hin. subst task.
    vm_compute. reflexivity. }
  exists p'. split; [exact Hstart|]. split; [exact Henc|].
  destruct (Hheads "svhn" ltac:(left)) as (w & Hw & Hh).
  rewrite Hh, <- Hw. vm_compute. reflexivity.
Defined.

Lemma restart_keeps_heads_base_patch32 :
  exists p1 p2,
    toy_start base_patch32 fresh_process = Ok p1
    /\ toy_start base_patch32 p1 = Ok p2
    /\ encoder_calls p2 = encoder_calls p1
    /\ head_data p2 "mnist" = head_data p1 "mnist".
Proof.
  destruct (toy_start base_patch32 fresh_process) as [p1|e] eqn:Hstart;
    [|vm_compute in Hstart; discriminate Hstart].
  destruct (restart_keeps_heads toy_registry toy_classifier base_patch32
              fresh_process p1 Hstart) as (p2 & H2 & _ & Henc & Hheads).
  exists p1, p2. split; [reflexivity|]. split; [exact H2|]. split; [exact Henc|].
  apply (Hheads "mnist"). right. left.
Defined.

Lemma start_encodes_missing_heads_base_patch32 :
  exists p',
    toy_start base_patch32 fresh_process = Ok p'
    /\ encoder_calls p' = 1%nat.
Proof.
  destruct (toy_start base_patch32 fresh_process) as [p'|e] eqn:Hstart;
    [|vm_compute in Hstart; discriminate Hstart].
  destruct (start_encodes_missing_heads toy_registry toy_classifier base_patch32
              fresh_process p') as (Henc & _).
  { repeat constructor; [|apply not_elem_of_nil].
    intros H. apply list_elem_of_singleton in H. discriminate H. }
  { exact Hstart. }
  exists p'. split; [reflexivity|]. rewrite Henc. vm_compute. reflexivity.
Defined.

Lemma same_basename_shares_heads_finetuned :
  exists p1 p2,
    toy_start base_patch32 cold_process = Ok p1
    /\ toy_start finetuned_patch32 p1 = Ok p2
    /\ encoder_calls p2 = encoder_calls p1
    /\ head_data p2 "mnist"
       = Some (toy_classifier "openai/clip-vit-base-patch32" "mnist" tt).
Proof.
  destruct (toy_start base_patch32 cold_process) as [p1|e] eqn:Hstart;
    [|vm_compute in Hstart; discriminate Hstart].
  destruct (same_basename_shares_heads toy_registry toy_classifier
              base_patch32 finetuned_patch32 cold_process p1
              eq_refl eq_refl Hstart) as (_ & p2 & H2 & Henc & Hheads).
  { intros task Hin. apply list_elem_of_singleton in Hin. subst task. right. left. }
  exists p1, p2. split; [reflexivity|]. split; [exact H2|]. split; [exact Henc|].
  apply (Hheads "mnist" "mnist" tt); [left | vm_compute; reflexivity | reflexivity].
Defined.

Lemma start_keeps_files_and_other_heads_svhn :
  exists p',
    toy_start base_patch32 fresh_process = Ok p'
    /\ files p' !! "outputs/cache/clip-vit-base-patch32_svhn_zeroshot_weights.pt"
       = Some "clip-vit-base-patch32:svhn"
    /\ zeroshot_weights p' !! "cars" = None.
Proof.
  destruct (toy_start base_patch32 fresh_process) as [p'|e] eqn:Hstart;
    [|vm_compute in Hstart; discriminate Hstart].
  destruct (start_keeps_files_and_other_heads toy_registry toy_classifier
              base_patch32 fresh_process p' Hstart) as (Hfiles & Hother).
  exists p'. split; [reflexivity|]. split.
  - apply Hfiles. vm_compute. reflexivity.
  - rewrite Hother; [reflexivity|].
    intros Hin. repeat (apply elem_of_cons in Hin; destruct Hin as [Hin|Hin];
                        [discriminate Hin|]).
    apply elem_of_nil in Hin. exact Hin.
Defined.

End ZeroShotCacheFacts.

(** ** The cached datasets and loader iterators of
    [CLIPTaskWiseAdaMergingAlgorithm] *)

Module CachedLoaders.
Import InfiniteStream.

Local Open Scope nat_scope.

Section Methods.
(** The pool, the dataset wrapper and the loader are collaborators:
    [DataLoader d] stands for the shuffling loader built over [d], set up
    by the fabric when there is one. *)
Context {Raw Processor Dataset Batch : Type}.
Variable load_test_dataset : string -> Raw.
Variable CLIPDataset : Raw -> option Processor -> Dataset.
Variable DataLoader : Dataset -> data_loader (Batch := Batch).

(** An instance as a method sees it: its identity, by which
    [functools.cache] tells instances apart, and the processor it holds at
    the time of the call. *)
Record instance : Type := Instance {
  instance_id : nat;
  _clip_processor : option Processor
}.

(** The two caches of [functools.cache], keyed by the arguments [(self,
    task)], and the calls of [modelpool.load_test_dataset] made so far. *)
Record caches : Type := Caches {
  test_datasets : gmap (nat * string) Dataset;
  loader_iters : gmap (nat * string) (infinite_data_loader (Batch := Batch));
  loaded : list string
}.

(** Lines 47-56. *)
Definition get_test_dataset (self : instance) (task : string) (c : caches)
  : Dataset * caches :=
  match test_datasets c !! (instance_id self, task) with
  | Some dataset => (dataset, c)
  | None =>
      let dataset := CLIPDataset (load_test_dataset task) (_clip_processor self) in
      (dataset,
       {| test_datasets := <[(instance_id self, task) := dataset]> (test_datasets c);
          loader_iters := loader_iters c;
          loaded := loaded c ++ [task] |})
  end.

(** Lines 58-69: the iterator object is the entry of the cache. *)
Definition get_shuffled_test_loader_iter (self : instance) (task : string) (c : caches)
  : infinite_data_loader (Batch := Batch) * caches :=
  match loader_iters c !! (instance_id self, task) with
  | Some it => (it, c)
  | None =>
      let '(dataset, c1) := get_test_dataset self task c in
      let it := init (DataLoader dataset) in
      (it, {| test_datasets := test_datasets c1;
              loader_iters := <[(instance_id self, task) := it]> (loader_iters c1);
              loaded := loaded c1 |})
  end.

(** [next(self.get_shuffled_test_loader_iter(task))]: the iterator is
    advanced where it lives. *)
Definition draw (self : instance) (task : string) (c : caches)
  : result Batch * caches :=
  let '(it, c1) := get_shuffled_test_loader_iter self task c in
  let '(r, it') := next it in
  (r, {| test_datasets := test_datasets c1;
         loader_iters := <[(instance_id self, task) := it']> (loader_iters c1);
         loaded := loaded c1 |}).

(** [n] draws in a row, stopping at the first that raises. *)
Fixpoint draws (n : nat) (self : instance) (task : string) (c : caches)
  : result (list Batch) * caches :=
  match n with
  | O => (Ok [], c)
  | S n' =>
      match draw self task c with
      | (Ok b, c1) =>
          match draws n' self task c1 with
          | (Ok bs, c2) => (Ok (b :: bs), c2)
          | (Raise e, c2) => (Raise e, c2)
          end
      | (Raise e, c1) => (Raise e, c1)
      end
  end.

(** The iterator of [key] has answered [j] calls over loader [l]. *)
Definition cached_at (l : data_loader) (L j : nat) (key : nat * string) (c : caches)
  : Prop :=
  exists it, loader_iters c !! key = Some it /\ at_call l L j it.

(** Nothing is cached for [key]. *)
Definition uncached (key : nat * string) (c : caches) : Prop :=
  test_datasets c !! key = None /\ loader_iters c !! key = None.

(** *** One draw *)

Lemma draw_cached (l : data_loader) (L j : nat) (self : instance) (task : string)
    (c : caches) :
  has_length l L -> 1 <= L ->
  cached_at l L j (instance_id self, task) c ->
  exists b c', draw self task c = (Ok b, c')
    /\ l (j / L) !! (j mod L) = Some b
    /\ cached_at l L (S j) (instance_id self, task) c'
    /\ loaded c' = loaded c
    /\ test_datasets c' = test_datasets c
    /\ forall key, key <> (instance_id self, task) ->
         loader_iters c' !! key = loader_iters c !! key.
Proof.
  intros Hlen HL (it & Hit & Hat).
  destruct (next_at_call l L j it Hlen HL Hat) as (b & it' & Hnext & Hb & Hat').
  exists b. eexists. unfold draw, get_shuffled_test_loader_iter. rewrite Hit, Hnext.
  split; [reflexivity|]. split; [exact Hb|]. split.
  - exists it'. simpl. rewrite lookup_insert_eq. auto.
  - simpl. repeat split. intros key Hkey. apply lookup_insert_ne. congruence.
Qed.

Lemma first_draw (L : nat) (self : instance) (task : string) (c : caches) :
  let l := DataLoader (CLIPDataset (load_test_dataset task) (_clip_processor self)) in
  has_length l L -> 1 <= L ->
  uncached (instance_id self, task) c ->
  exists b c', draw self task c = (Ok b, c')
    /\ l 0 !! 0 = Some b
    /\ cached_at l L 1 (instance_id self, task) c'
    /\ loaded c' = loaded c ++ [task]
    /\ test_datasets c' !! (instance_id self, task)
       = Some (CLIPDataset (load_test_dataset task) (_clip_processor self))
    /\ forall key, key <> (instance_id self, task) ->
         loader_iters c' !! key = loader_iters c !! key.
Proof.
  intros l Hlen HL [Hd Hi].
  destruct (next_at_call l L 0 (init l) Hlen HL (at_call_init l L))
    as (b & it' & Hnext & Hb & Hat').
  rewrite Nat.Div0.div_0_l, Nat.Div0.mod_0_l in Hb.
  exists b. eexists. unfold draw, get_shuffled_test_loader_iter, get_test_dataset.
  rewrite Hi, Hd. fold l. rewrite Hnext.
  split; [reflexivity|]. split; [exact Hb|]. split.
  - exists it'. simpl. rewrite lookup_insert_eq. auto.
  - simpl. split; [reflexivity|]. split; [apply lookup_insert_eq|].
    intros key Hkey. rewrite !lookup_insert_ne by congruence. reflexivity.
Qed.

Lemma draws_cached (l : data_loader) (L : nat) (self : instance) (task : string) :
  has_length l L -> 1 <= L ->
  forall n j c,
    cached_at l L j (instance_id self, task) c ->
    exists bs c', draws n self task c = (Ok bs, c')
      /\ length bs = n
      /\ (forall i, i < n -> bs !! i = l ((j + i) / L) !! ((j + i) mod L))
      /\ loaded c' = loaded c
      /\ test_datasets c' = test_datasets c
      /\ forall key, key <> (instance_id self, task) ->
           loader_iters c' !! key = loader_iters c !! key.
Proof.
  intros Hlen HL. induction n as [|n IH]; intros j c Hc.
  - exists [], c. repeat split. intros i Hi. lia.
  - destruct (draw_cached l L j self task c Hlen HL Hc)
      as (b & c1 & Hdraw & Hb & Hc1 & Hl1 & Hd1 & Ho1).
    destruct (IH (S j) c1 Hc1) as (bs & c2 & Hdraws & Hlenbs & Hbs & Hl2 & Hd2 & Ho2).
    exists (b :: bs), c2. simpl. rewrite Hdraw, Hdraws.
    split; [reflexivity|]. split; [simpl; lia|]. split.
    + intros [|i] Hi.
      * rewrite Nat.add_0_r. simpl. symmetry. exact Hb.
      * replace (j + S i) with (S j + i) by lia. rewrite <- Hbs by lia. reflexivity.
    + split; [congruence|]. split; [congruence|].
      intros key Hkey. rewrite Ho2, Ho1 by exact Hkey. reflexivity.
Qed.

(** X14: thanks to the cache, drawing again and again through
    [get_shuffled_test_loader_iter] walks one iterator: from a task not yet
    cached, [n >= 1] draws load the dataset once, return batch [j mod L] of
    pass [j / L] of its loader at draw [j], and touch the iterator of no
    other task or instance. *)
Theorem draws_walk_one_iterator (L n : nat) (self : instance) (task : string)
    (c : caches) :
  let l := DataLoader (CLIPDataset (load_test_dataset task) (_clip_processor self)) in
  has_length l L -> 1 <= L -> 1 <= n ->
  uncached (instance_id self, task) c ->
  exists bs c', draws n self task c = (Ok bs, c')
    /\ length bs = n
    /\ (forall j, j < n -> bs !! j = l (j / L) !! (j mod L))
    /\ loaded c' = loaded c ++ [task]
    /\ forall key, key <> (instance_id self, task) ->
         loader_iters c' !! key = loader_iters c !! key.
Proof.
  intros l Hlen HL Hn Hun. destruct n as [|n]; [lia|].
  destruct (first_draw L self task c Hlen HL Hun)
    as (b & c1 & Hdraw & Hb & Hc1 & Hl1 & _ & Ho1).
  destruct (draws_cached l L self task Hlen HL n 1 c1 Hc1)
    as (bs & c2 & Hdraws & Hlenbs & Hbs & Hl2 & _ & Ho2).
  exists (b :: bs), c2. simpl. rewrite Hdraw, Hdraws.
  split; [reflexivity|]. split; [simpl; lia|]. split.
  - intros [|j] Hj.
    + rewrite Nat.Div0.div_0_l, Nat.Div0.mod_0_l. simpl. symmetry. exact Hb.
    + simpl. rewrite Hbs by lia. reflexivity.
  - split; [congruence|].
    intros key Hkey. rewrite Ho2, Ho1 by exact Hkey. reflexivity.
Qed.

(** X15: the dataset of a task is built once, with the processor that the
    instance holds at the first call: a later call returns that dataset
    whatever processor the instance holds by then, and loads nothing. *)
Theorem get_test_dataset_keeps_first_processor (self self' : instance)
    (task : string) (c : caches) :
  instance_id self' = instance_id self ->
  test_datasets c !! (instance_id self, task) = None ->
  let '(dataset, c1) := get_test_dataset self task c in
  dataset = CLIPDataset (load_test_dataset task) (_clip_processor self)
  /\ loaded c1 = loaded c ++ [task]
  /\ get_test_dataset self' task c1 = (dataset, c1).
Proof.
  intros Hid Hnone. unfold get_test_dataset at 1. rewrite Hnone.
  split; [reflexivity|]. split; [reflexivity|].
  unfold get_test_dataset. simpl. rewrite Hid, lookup_insert_eq. reflexivity.
Qed.

End Methods.

(** A pool whose every test set has three samples, loaded one per batch
    and in the same order in every pass; the dataset remembers whether it
    was given a processor. *)
Definition three_samples (_ : string) : list nat := [7; 8; 9].

Definition remembering_dataset (raw : list nat) (processor : option unit)
  : list nat * bool :=
  (raw, bool_decide (processor = Some tt)).

Definition plain_loader (dataset : list nat * bool) : data_loader (Batch := nat) :=
  fun _ => fst dataset.

Definition no_caches : caches (Dataset := list nat * bool) (Batch := nat) :=
  {| test_datasets := ∅; loader_iters := ∅; loaded := [] |}.

Lemma draws_walk_one_iterator_five_draws :
  exists bs c',
    draws three_samples remembering_dataset plain_loader 5
          (Instance 0 None) "svhn" no_caches = (Ok bs, c')
    /\ bs = [7; 8; 9; 7; 8]
    /\ loaded c' = ["svhn"%string].
Proof.
  destruct (draws_walk_one_iterator three_samples remembering_dataset plain_loader
              3 5 (Instance 0 None) "svhn" no_caches)
    as (bs & c' & Hdraws & Hlen & Hbs & Hloaded & _).
  - intros k. reflexivity.
  - lia.
  - lia.
  - split; reflexivity.
  - exists bs, c'. split; [exact Hdraws|]. split; [|exact Hloaded].
    apply list_eq. intros j. destruct (decide (j < 5)) as [Hj|Hj].
    + rewrite (Hbs j Hj).
      do 5 (destruct j as [|j]; [reflexivity|]). lia.
    + rewrite !lookup_ge_None_2; [reflexivity | simpl; lia | lia].
Defined.

Lemma get_test_dataset_keeps_first_processor_none :
  let '(dataset, c1) :=
    get_test_dataset three_samples remembering_dataset (Batch := nat)
                     (Instance 0 None) "svhn" no_caches in
  dataset = ([7; 8; 9], false)
  /\ get_test_dataset three_samples remembering_dataset (Batch := nat)
                      (Instance 0 (Some tt)) "svhn" c1 = (dataset, c1).
Proof.
  pose proof (get_test_dataset_keeps_first_processor three_samples remembering_dataset
                (Batch := nat) (Instance 0 None) (Instance 0 (Some tt)) "svhn" no_caches
                eq_refl eq_refl) as H.
  destruct (get_test_dataset three_samples remembering_dataset (Batch := nat)
              (Instance 0 None) "svhn" no_caches) as [dataset c1].
  destruct H as (Hd & _ & Hagain). split; [exact Hd | exact Hagain].
Defined.

End CachedLoaders.

(** ** The whole of [DataAdaptiveWeightEnsemblingForCLIP.run] *)

Module FullRun.
Import InfiniteStream AdaptationLoop.

Local Open Scope Z_scope.

Section Run.
Context {Images Labels Logits Loss Scalar Train : Type}.
Variable compute_logits : Train -> Images -> string -> Logits.
Variable entropy_loss : Logits -> Loss.
Variable int_add : Z -> Loss -> Loss.
Variable loss_add : Loss -> Loss -> Loss.
Variable item : Loss -> Scalar.
Variable zero_grad : Train -> Train.
Variable backward : Loss -> Train -> Train.
Variable optimizer_step : Train -> Train.

Local Abbreviation step :=
  (adapt_step compute_logits entropy_loss int_add loss_add item
              zero_grad backward optimizer_step).
Local Abbreviation state :=
  (loop_state (Images := Images) (Labels := Labels) (Logits := Logits)
              (Loss := Loss) (Scalar := Scalar) (Train := Train)).
Local Abbreviation run_state := (Checkpointing.run_state (Model := state)).

(** Lines 206-229, with the adaptation step in place: an exception of the
    step ends the run. *)
Definition loop_body (model_names : list string) (save_interval i : Z)
    (st : run_state) : result run_state :=
  m ← step model_names i (Checkpointing.model st);
  let st1 := Checkpointing.RunState (Some i) m (Checkpointing.written st) in
  r ← py_mod (i + 1) save_interval;
  if r =? 0 then Ok (Checkpointing.fabric_save st1 i) else Ok st1.

Fixpoint for_loop (model_names : list string) (save_interval : Z)
    (steps : list Z) (st : run_state) : run_state * option py_error :=
  match steps with
  | [] => (st, None)
  | i :: rest =>
      match loop_body model_names save_interval i st with
      | Ok st' => for_loop model_names save_interval rest st'
      | Raise e => (st, Some e)
      end
  end.

(** Lines 193-238, from the loaded model [tr] on; a checkpoint holds the
    state of the run at the save, whose [train] component is the model. *)
Definition run (model_names : list string)
    (test_loader : string -> data_loader (Batch := batch (Images := Images) (Labels := Labels)))
    (tr : Train) (max_steps save_interval : Z)
  : Checkpointing.outcome (Model := state) :=
  let st0 := Checkpointing.RunState None
               (LoopState (load_datasets model_names test_loader) tr []) [] in
  match for_loop model_names save_interval (py_range max_steps) st0 with
  | (st, Some e) => Checkpointing.Aborted e (Checkpointing.written st)
  | (st, None) =>
      match Checkpointing.final_save save_interval st with
      | Ok st' => Checkpointing.Returned (Checkpointing.model st')
                                         (Checkpointing.written st')
      | Raise e => Checkpointing.Aborted e (Checkpointing.written st)
      end
  end.






(** *** What a trace holds *)







(** *** One step of a tracked run *)



(** *** The loop *)







(** *** A loader without batches *)




End Run.










End FullRun.

(** * The checkpoint schedule of [run]

    Source: [src/fusion_bench/method/dawe/dawe_for_clip.py], lines 206-236.
    Facts about the files [model_{step_idx}.pt] a completed run writes. *)
Module CheckpointingFacts.
Import Checkpointing.

Local Open Scope Z_scope.

Section Run.
Context {Model : Type}.
Variable adapt : Z -> Model -> Model.

Lemma save_point_opp (si s : Z) : save_point (- si) s = save_point si s.
Proof.
  unfold save_point. destruct (Z.eq_dec si 0) as [->|Hsi]; [reflexivity|].
  destruct (Z.eqb_spec ((s + 1) mod si) 0) as [H|H];
    destruct (Z.eqb_spec ((s + 1) mod - si) 0) as [H'|H']; try reflexivity; exfalso.
  - apply H'. apply Z.mod_divide; [lia|]. apply Z.divide_opp_l.
    apply Z.mod_divide; assumption.
  - apply H. apply Z.mod_divide; [lia|]. apply Z.divide_opp_l.
    apply Z.mod_divide; [lia | exact H'].
Qed.

Lemma scheduled_opp (si max_steps : Z) : scheduled (- si) max_steps = scheduled si max_steps.
Proof.
  unfold scheduled. rewrite save_point_opp. f_equal.
  apply List.filter_ext. intros s. apply save_point_opp.
Qed.

Lemma filter_range_sorted (f : Z -> bool) (a n : nat) :
  StronglySorted Z.lt (List.filter f (map Z.of_nat (seq a n))).
Proof.
  revert a. induction n as [|n IH]; intros a; simpl; [constructor|].
  destruct (f (Z.of_nat a)); [|apply IH].
  constructor; [apply IH|]. apply List.Forall_forall. intros x Hx.
  apply List.filter_In in Hx. destruct Hx as [Hx _].
  apply in_map_iff in Hx. destruct Hx as (k & <- & Hk).
  apply in_seq in Hk. lia.
Qed.

Lemma sorted_snoc (l : list Z) (x : Z) :
  StronglySorted Z.lt l -> List.Forall (fun y => y < x) l ->
  StronglySorted Z.lt (l ++ [x]).
Proof.
  induction 1 as [|a l Hs IH Ha]; intros Hx; simpl.
  - constructor; constructor.
  - inversion Hx as [|? ? Hax Hlx]; subst. constructor; [apply IH, Hlx|].
    apply Forall_app. split; [exact Ha|]. constructor; [exact Hax | constructor].
Qed.

Lemma sorted_NoDup (l : list Z) : StronglySorted Z.lt l -> NoDup l.
Proof.
  induction 1 as [|a l Hs IH Ha]; [constructor|].
  apply NoDup_cons. split; [|exact IH].
  intros Hin. rewrite Forall_forall in Ha. specialize (Ha a Hin). lia.
Qed.

Lemma scheduled_sorted (si : Z) (n : nat) :
  StronglySorted Z.lt (scheduled si (Z.of_nat (S n))).
Proof.
  unfold scheduled. destruct (save_point si (Z.of_nat (S n) - 1)) eqn:Hlast.
  - rewrite app_nil_r. apply filter_range_sorted.
  - apply sorted_snoc; [apply filter_range_sorted|].
    apply List.Forall_forall. intros x Hx.
    apply List.filter_In in Hx. destruct Hx as [Hx Hsp].
    pose proof (py_range_bound _ _ Hx) as Hb.
    assert (x <> Z.of_nat (S n) - 1); [|lia].
    intros ->. congruence.
Qed.

Lemma scheduled_bound (si max_steps s : Z) :
  1 <= max_steps -> In s (scheduled si max_steps) -> 0 <= s < max_steps.
Proof.
  intros Hms Hin. unfold scheduled in Hin. apply in_app_or in Hin.
  destruct Hin as [Hin|Hin].
  - apply List.filter_In in Hin. destruct Hin as [Hin _].
    apply py_range_bound in Hin. exact Hin.
  - destruct (save_point si (max_steps - 1)); simpl in Hin; [tauto|].
    destruct Hin as [<-|[]]. lia.
Qed.




(** X19: a run that completes writes its checkpoints in increasing order of
    step, so that no file [model_{step_idx}.pt] is written twice; every
    step saved is a step of the run, and every checkpoint holds the model
    as it was after that step and before any later one. *)
Theorem checkpoints_in_step_order (m0 : Model) (max_steps save_interval : Z) :
  1 <= max_steps -> save_interval <> 0 ->
  exists m w,
    run adapt m0 max_steps save_interval = Returned m w
    /\ StronglySorted Z.lt (steps_of w)
    /\ NoDup (steps_of w)
    /\ List.Forall (fun ev => 0 <= ckpt_step ev < max_steps
                              /\ ckpt_model ev
                                 = adapted adapt m0 (Z.to_nat (ckpt_step ev + 1))) w.
Proof.
  intros Hms Hsi. eexists _, _. split; [apply run_returns; assumption|].
  assert (Hsteps : steps_of (map (event_at adapt m0) (scheduled save_interval max_steps))
                   = scheduled save_interval max_steps).
  { unfold steps_of. rewrite map_map. simpl. apply map_id. }
  assert (Hsorted : StronglySorted Z.lt (scheduled save_interval max_steps)).
  { destruct (Z.to_nat max_steps) as [|n] eqn:Hn; [lia|].
    replace max_steps with (Z.of_nat (S n)) by lia. apply scheduled_sorted. }
  rewrite Hsteps. split; [exact Hsorted|]. split; [apply sorted_NoDup, Hsorted|].
  apply List.Forall_forall. intros ev Hev.
  apply in_map_iff in Hev. destruct Hev as (s & <- & Hs). simpl.
  split; [apply (scheduled_bound save_interval); assumption | reflexivity].
Qed.


(** X21: the sign of [save_interval] is of no account: [run] does with
    [- save_interval] what it does with [save_interval], checkpoints
    and errors alike, since [%] is only compared with zero. *)
Theorem run_negative_interval (m0 : Model) (max_steps save_interval : Z) :
  run adapt m0 max_steps (- save_interval) = run adapt m0 max_steps save_interval.
Proof.
  destruct (Z_le_gt_dec max_steps 0) as [Hle|Hgt].
  - rewrite !run_without_steps by exact Hle. reflexivity.
  - destruct (Z.eq_dec save_interval 0) as [->|Hsi]; [reflexivity|].
    rewrite !run_returns by lia. rewrite scheduled_opp. reflexivity.
Qed.

End Run.

Lemma checkpoints_in_step_order_10_3 :
  exists m w,
    run counting_adapt 0%nat 10 3 = Returned m w
    /\ NoDup (steps_of w)
    /\ List.Forall (fun ev => ckpt_model ev = Z.to_nat (ckpt_step ev + 1)) w.
Proof.
  destruct (checkpoints_in_step_order counting_adapt 0%nat 10 3 ltac:(lia) ltac:(lia))
    as (m & w & Hrun & _ & Hnodup & Hall).
  exists m, w. split; [exact Hrun|]. split; [exact Hnodup|].
  injection Hrun as _ <-. repeat constructor.
Defined.


End CheckpointingFacts.

(** * Passes of unequal length through [InfiniteDataLoader]

    Source: [src/fusion_bench/compat/method/adamerging/clip_task_wise_adamerging.py],
    lines 22-36.  The passes of the wrapped loader need not have one
    length: an iterable dataset may yield more batches in one pass than in
    the next. *)
Module InfiniteStreamFacts.
Import InfiniteStream.

Local Open Scope nat_scope.

Section Loader.
Context {Batch : Type}.

(** The batches of the first [k] passes, in the order the loader yields
    them. *)
Definition passes (l : data_loader (Batch := Batch)) (k : nat) : list Batch :=
  concat (map l (seq 0 k)).

(** The stream has answered [j] calls: it is [r] batches into pass [q],
    and past the first batch of that pass once it has answered a call. *)
Definition into (l : data_loader (Batch := Batch)) (j : nat)
    (s : infinite_data_loader) : Prop :=
  exists q r, loader s = l /\ passes_started s = S q
              /\ data_iter s = drop r (l q)
              /\ r <= length (l q)
              /\ j = length (passes l q) + r
              /\ (j = 0 \/ 1 <= r).

Lemma passes_S (l : data_loader (Batch := Batch)) (k : nat) : passes l (S k) = passes l k ++ l k.
Proof.
  unfold passes. rewrite seq_S, map_app, concat_app. simpl.
  rewrite app_nil_r. reflexivity.
Qed.

Lemma passes_le (l : data_loader (Batch := Batch)) (k K : nat) :
  k <= K -> exists rest, passes l K = passes l k ++ rest.
Proof.
  induction 1 as [|K Hle [rest IH]].
  - exists []. rewrite app_nil_r. reflexivity.
  - exists (rest ++ l K). rewrite passes_S, IH, app_assoc. reflexivity.
Qed.

Lemma passes_lt (l : data_loader (Batch := Batch)) (k K : nat) :
  k < K -> exists rest, passes l K = passes l k ++ l k ++ rest.
Proof.
  intros Hlt. destruct (passes_le l (S k) K Hlt) as [rest Hrest].
  exists rest. rewrite Hrest, passes_S, app_assoc. reflexivity.
Qed.

Lemma passes_length_le (l : data_loader (Batch := Batch)) (k K : nat) :
  k <= K -> length (passes l k) <= length (passes l K).
Proof.
  intros Hle. destruct (passes_le l k K Hle) as [rest ->].
  rewrite length_app. lia.
Qed.

Lemma passes_length_lt (l : data_loader (Batch := Batch)) (k K : nat) :
  k < K -> l k <> [] -> length (passes l k) < length (passes l K).
Proof.
  intros Hlt Hne. destruct (passes_lt l k K Hlt) as [rest ->].
  rewrite !length_app. destruct (l k); [congruence | simpl; lia].
Qed.

Lemma passes_length_ge (l : data_loader (Batch := Batch)) (K : nat) :
  (forall k, k < K -> l k <> []) -> K <= length (passes l K).
Proof.
  induction K as [|K IH]; intros Hne; [simpl; lia|].
  specialize (IH ltac:(intros k Hk; apply Hne; lia)).
  pose proof (passes_length_lt l K (S K) ltac:(lia) (Hne K ltac:(lia))). lia.
Qed.

Lemma passes_length (l : data_loader (Batch := Batch)) (L k : nat) :
  has_length l L -> length (passes l k) = k * L.
Proof.
  intros Hlen. induction k as [|k IH]; [reflexivity|].
  rewrite passes_S, length_app, IH, Hlen. lia.
Qed.

Lemma into_init (l : data_loader (Batch := Batch)) : into l 0 (init l).
Proof. exists 0, 0. simpl. repeat split; auto; lia. Qed.

Lemma next_into (l : data_loader (Batch := Batch)) (j K : nat) (s : infinite_data_loader) :
  into l j s -> (forall k, k < K -> l k <> []) -> j < length (passes l K) ->
  exists b s', next s = (Ok b, s')
               /\ passes l K !! j = Some b
               /\ into l (S j) s'.
Proof.
  intros (q & r & Hl & Hp & Hit & Hr & Hj & Hpos) Hne HjK.
  destruct (decide (r < length (l q))) as [Hlt|Hge].
  - (* still inside pass [q] *)
    destruct (lookup_lt_is_Some_2 (l q) r Hlt) as [b Hb].
    exists b. eexists. unfold next. rewrite Hit, (iter_next_drop _ _ _ Hb).
    split; [reflexivity|]. split.
    + assert (HqK : q < K).
      { destruct (decide (q < K)) as [|Hn]; [assumption|].
        pose proof (passes_length_le l K q ltac:(lia)). lia. }
      destruct (passes_lt l q K HqK) as [rest ->].
      rewrite lookup_app_r by lia. rewrite lookup_app_l by lia.
      replace (j - length (passes l q)) with r by lia. exact Hb.
    + exists q, (S r). simpl. repeat split; try assumption; lia.
  - (* pass [q] is exhausted: a fresh pass starts *)
    assert (r = length (l q)) by lia. subst r.
    assert (HjS : j = length (passes l (S q))) by (rewrite passes_S, length_app; lia).
    assert (HqK : S q < K).
    { destruct (decide (S q < K)) as [|Hn]; [assumption|].
      pose proof (passes_length_le l K (S q) ltac:(lia)). lia. }
    destruct (l (S q)) as [|b fresh] eqn:Hfresh; [exfalso; apply (Hne (S q) HqK Hfresh)|].
    exists b. eexists. unfold next. rewrite Hit, drop_ge by lia.
    simpl iter_next. cbv iota beta. rewrite Hp, Hl, Hfresh. simpl.
    split; [reflexivity|]. split.
    + destruct (passes_lt l (S q) K HqK) as [rest ->].
      rewrite lookup_app_r by lia. rewrite Hfresh.
      replace (j - length (passes l (S q))) with 0 by lia. reflexivity.
    + exists (S q), 1. simpl. rewrite Hfresh. simpl.
      repeat split; lia.
Qed.

Lemma next_n_into (l : data_loader (Batch := Batch)) (K : nat) :
  (forall k, k < K -> l k <> []) ->
  forall n j s, into l j s -> j + n <= length (passes l K) ->
  exists bs s', next_n n s = (Ok bs, s')
                /\ bs = take n (drop j (passes l K))
                /\ into l (j + n) s'.
Proof.
  intros Hne. induction n as [|n IH]; intros j s Hinto Hle.
  - exists [], s. rewrite Nat.add_0_r. repeat split. exact Hinto.
  - destruct (next_into l j K s Hinto Hne ltac:(lia)) as (b & s1 & Hnext & Hb & Hinto1).
    destruct (IH (S j) s1 Hinto1 ltac:(lia)) as (bs & s2 & Hrest & Hbs & Hinto2).
    exists (b :: bs), s2. simpl. rewrite Hnext, Hrest.
    split; [reflexivity|]. split.
    + rewrite (drop_S _ _ _ Hb). simpl. rewrite Hbs. reflexivity.
    + replace (j + S n) with (S j + n) by lia. exact Hinto2.
Qed.

(** X22: whatever the lengths of the passes, as long as no pass is empty,
    [n] calls of [next] return the first [n] batches of the passes laid end
    to end: every batch of every pass is returned, in order, before the
    next pass starts, and no call raises. *)
Theorem passes_delivered_in_order (l : data_loader (Batch := Batch)) (n : nat) :
  (forall k, l k <> []) ->
  exists s', next_n n (init l) = (Ok (take n (passes l n)), s').
Proof.
  intros Hne.
  destruct (next_n_into l n (fun k _ => Hne k) n 0 (init l) (into_init l))
    as (bs & s' & Hn & Hbs & _).
  - apply (passes_length_ge l n). intros k _. apply Hne.
  - exists s'. rewrite Hn, Hbs. reflexivity.
Qed.

(** X23: the stream ends at the first empty pass that follows a pass with
    batches: every batch of the passes before it is returned, and the call
    after the last of them raises [StopIteration], the retry of [__next__]
    having found the fresh pass empty. *)
Theorem stops_at_first_empty_pass (l : data_loader (Batch := Batch)) (q : nat) :
  1 <= q -> (forall k, k < q -> l k <> []) -> l q = [] ->
  exists s,
    next_n (length (passes l q)) (init l) = (Ok (passes l q), s)
    /\ fst (next s) = Raise StopIteration.
Proof.
  intros Hq Hne Hempty.
  destruct (next_n_into l q Hne (length (passes l q)) 0 (init l) (into_init l) ltac:(lia))
    as (bs & s & Hn & Hbs & Hinto).
  exists s. split.
  { rewrite Hn, Hbs, drop_0, take_ge by reflexivity. reflexivity. }
  destruct Hinto as (q' & r & Hl & Hp & Hit & Hr & Hj & Hpos). simpl in Hj.
  pose proof (passes_length_ge l q Hne) as Hlong.
  assert (Hr1 : 1 <= r) by (destruct Hpos; lia).
  assert (Hlt : q' < q).
  { destruct (decide (q' < q)) as [|Hn']; [assumption|].
    pose proof (passes_length_le l q q' ltac:(lia)). lia. }
  pose proof (passes_length_le l (S q') q Hlt) as Hle.
  rewrite passes_S, length_app in Hle.
  assert (Hfull : r = length (l q')) by lia.
  assert (Hnext : S q' = q).
  { destruct (decide (S q' = q)) as [|Hn']; [assumption|].
    pose proof (passes_length_lt l (S q') q ltac:(lia) (Hne (S q') ltac:(lia))) as Hstrict.
    rewrite passes_S, length_app in Hstrict. lia. }
  unfold next. rewrite Hit, drop_ge by lia. simpl iter_next. cbv iota beta.
  rewrite Hp, Hl, Hnext, Hempty. reflexivity.
Qed.

(** X24: a pass is started only when a batch is asked of it: after
    [n >= 1] calls on a source of length [L >= 1], [iter] has been called
    on the loader [1 + (n - 1) / L] times, the call of [__init__]
    included. *)
Theorem passes_started_on_demand (l : data_loader (Batch := Batch)) (L n : nat) :
  has_length l L -> 1 <= L -> 1 <= n ->
  exists bs s', next_n n (init l) = (Ok bs, s')
                /\ passes_started s' = S ((n - 1) / L).
Proof.
  intros Hlen HL Hn.
  assert (Hne : forall k, k < n -> l k <> []).
  { intros k _ Hk. specialize (Hlen k). rewrite Hk in Hlen. simpl in Hlen. lia. }
  destruct (next_n_into l n Hne n 0 (init l) (into_init l)) as (bs & s' & Hrun & _ & Hinto).
  { apply (passes_length_ge l n Hne). }
  exists bs, s'. split; [exact Hrun|].
  destruct Hinto as (q & r & _ & Hp & _ & Hr & Hj & Hpos). simpl in Hj.
  rewrite (passes_length l L q Hlen) in Hj. rewrite Hlen in Hr.
  rewrite Hp. f_equal.
  apply (Nat.div_unique (n - 1) L q (r - 1)); destruct Hpos; lia.
Qed.

End Loader.

(** A loader whose passes grow: pass [k] has [k + 1] batches. *)
Definition growing_loader : data_loader (Batch := nat) :=
  fun k => map (fun i => 10 * k + i) (seq 0 (S k)).

(** Two batches, then one, then none. *)
Definition drying_loader : data_loader (Batch := nat) :=
  fun k => match k with 0 => [1; 2] | 1 => [3] | _ => [] end.

Lemma passes_delivered_in_order_growing :
  exists s', next_n 5 (init growing_loader) = (Ok [0; 10; 11; 20; 21], s').
Proof.
  destruct (passes_delivered_in_order growing_loader 5) as [s' Hn].
  - intros k. discriminate.
  - exists s'. exact Hn.
Defined.

Lemma stops_at_first_empty_pass_drying :
  exists s, next_n 3 (init drying_loader) = (Ok [1; 2; 3], s)
            /\ fst (next s) = Raise StopIteration.
Proof.
  destruct (stops_at_first_empty_pass drying_loader 2) as (s & Hn & Hstop).
  - lia.
  - intros [|[|k]] Hk; [discriminate | discriminate | lia].
  - reflexivity.
  - exists s. split; [exact Hn | exact Hstop].
Defined.

Lemma passes_started_on_demand_three_batches :
  exists bs s', next_n 6 (init three_batches) = (Ok bs, s')
                /\ passes_started s' = 2.
Proof.
  destruct (passes_started_on_demand three_batches 3 6) as (bs & s' & Hn & Hp);
    [intros k; reflexivity | lia | lia |].
  exists bs, s'. split; [exact Hn | exact Hp].
Defined.

End InfiniteStreamFacts.

(** * One step of the optimizer

    Source: [src/fusion_bench/method/dawe/dawe_for_clip.py], lines 201-216:
    what [zero_grad], [backward] and [step] together do to a parameter the
    optimizer was built over. *)
Module OptimizerFacts.
Import Optimizer.

Local Open Scope nat_scope.

Section Adam.
Context {Value Grad AdamState : Type}.
Variable gradient : list (parameter (Value := Value) (Grad := Grad)) -> Z -> nat -> option Grad.
Variable accumulate_grad : Grad -> Grad -> Grad.
Variable adam_update : Value -> Grad -> option AdamState -> Value * AdamState.

Local Abbreviation parameter := (parameter (Value := Value) (Grad := Grad)).
Local Abbreviation optimizer := (optimizer (AdamState := AdamState)).
Local Abbreviation train_step := (train_step gradient accumulate_grad adam_update).

(** The parameter with its gradient reset. *)
Definition cleared (p : parameter) : parameter :=
  {| value := value p; requires_grad := requires_grad p; grad := None |}.

(** What [optimizer.step()] makes of a parameter and of its Adam state. *)
Definition updated (p : parameter) (s : option AdamState) : parameter * option AdamState :=
  match grad p with
  | Some g =>
      let '(v, s') := adam_update (value p) g s in
      ({| value := v; requires_grad := requires_grad p; grad := grad p |}, Some s')
  | None => (p, s)
  end.

(** The states the loop of lines 206-216 passes through. *)
Definition after (params : list parameter) (steps : list Z) : optimizer * list parameter :=
  fold_left (fun acc step_idx => train_step step_idx acc) steps (adam params, params).

Lemma zero_grad_lookup (opt : optimizer) (store : list parameter) (i : nat) :
  zero_grad opt store !! i
  = if decide (i ∈ param_group opt) then cleared <$> store !! i else store !! i.
Proof.
  unfold zero_grad. generalize (param_group opt) as l. intros l. revert store.
  induction l as [|a l IH]; intros store; simpl.
  - destruct (decide (i ∈ [])) as [Hin|_]; [inversion Hin | reflexivity].
  - rewrite IH. fold cleared.
    destruct (decide (a = i)) as [->|Hne].
    + rewrite list_lookup_alter_eq.
      destruct (decide (i ∈ i :: l)) as [_|Hn]; [|exfalso; apply Hn; left].
      destruct (decide (i ∈ l)); [|reflexivity].
      destruct (store !! i); reflexivity.
    + rewrite list_lookup_alter_ne by exact Hne.
      destruct (decide (i ∈ l)) as [Hin|Hnin];
        destruct (decide (i ∈ a :: l)) as [Hin'|Hnin']; try reflexivity.
      * exfalso. apply Hnin'. right. exact Hin.
      * exfalso. apply elem_of_cons in Hin'. destruct Hin' as [->|Hin']; contradiction.
Qed.

Lemma update_parameter_at (i : nat) (store : list parameter)
    (st : gmap nat AdamState) (p : parameter) :
  store !! i = Some p ->
  fst (update_parameter adam_update i (store, st)) !! i = Some (fst (updated p (st !! i)))
  /\ snd (update_parameter adam_update i (store, st)) !! i = snd (updated p (st !! i)).
Proof.
  intros Hp. unfold update_parameter, updated. rewrite Hp.
  destruct (grad p) as [g|] eqn:Hg; [|simpl; auto].
  destruct (adam_update (value p) g (st !! i)) as [v s]. simpl.
  split; [|apply lookup_insert_eq].
  apply list_lookup_insert_eq. apply lookup_lt_Some in Hp. exact Hp.
Qed.

Lemma update_parameter_other (i j : nat) (acc : list parameter * gmap nat AdamState) :
  i <> j ->
  fst (update_parameter adam_update i acc) !! j = fst acc !! j
  /\ snd (update_parameter adam_update i acc) !! j = snd acc !! j.
Proof.
  intros Hne. destruct acc as [store st]. unfold update_parameter.
  destruct (store !! i) as [p|]; [|auto].
  destruct (grad p) as [g|]; [|auto].
  destruct (adam_update (value p) g (st !! i)) as [v s]. simpl.
  split; [apply list_lookup_insert_ne | apply lookup_insert_ne]; exact Hne.
Qed.

Lemma updates_other (l : list nat) (j : nat) (acc : list parameter * gmap nat AdamState) :
  j ∉ l ->
  let acc' := fold_left (fun a i => update_parameter adam_update i a) l acc in
  fst acc' !! j = fst acc !! j /\ snd acc' !! j = snd acc !! j.
Proof.
  revert acc. induction l as [|a l IH]; intros acc Hnin; simpl; [auto|].
  apply not_elem_of_cons in Hnin. destruct Hnin as [Hne Hnin].
  destruct (IH (update_parameter adam_update a acc) Hnin) as [H1 H2].
  destruct (update_parameter_other a j acc ltac:(congruence)) as [H3 H4].
  simpl in H1, H2. rewrite H1, H2. auto.
Qed.

Lemma updates_at (l : list nat) (j : nat) (acc : list parameter * gmap nat AdamState)
    (p : parameter) :
  NoDup l -> j ∈ l -> fst acc !! j = Some p ->
  let acc' := fold_left (fun a i => update_parameter adam_update i a) l acc in
  fst acc' !! j = Some (fst (updated p (snd acc !! j)))
  /\ snd acc' !! j = snd (updated p (snd acc !! j)).
Proof.
  revert acc. induction l as [|a l IH]; intros acc Hnd Hin Hp; [inversion Hin|].
  apply NoDup_cons in Hnd. destruct Hnd as [Hnin Hnd].
  simpl. destruct (decide (j = a)) as [->|Hne].
  - destruct (updates_other l a (update_parameter adam_update a acc) Hnin) as [H1 H2].
    simpl in H1, H2. rewrite H1, H2. destruct acc as [store st].
    apply update_parameter_at. exact Hp.
  - apply elem_of_cons in Hin. destruct Hin as [Heq|Hin]; [contradiction|].
    destruct (update_parameter_other a j acc ltac:(congruence)) as [H3 H4].
    destruct (IH (update_parameter adam_update a acc) Hnd Hin ltac:(rewrite H3; exact Hp))
      as [H1 H2].
    simpl in H1, H2. rewrite H1, H2, H4. auto.
Qed.

Lemma adam_param_group (params : list parameter) :
  NoDup (param_group (adam (AdamState := AdamState) params))
  /\ forall i, i ∈ param_group (adam (AdamState := AdamState) params)
               <-> trainable params i = true.
Proof.
  split.
  - apply NoDup_ListNoDup. unfold adam. simpl.
    apply List.NoDup_filter, List.seq_NoDup.
  - intros i. rewrite list_elem_of_In. apply (param_group_adam gradient).
Qed.

Lemma train_step_at (opt : optimizer) (store : list parameter) (step_idx : Z)
    (i : nat) (p : parameter) :
  NoDup (param_group opt) -> i ∈ param_group opt ->
  store !! i = Some p -> requires_grad p = true ->
  let g := gradient (zero_grad opt store) step_idx i in
  snd (train_step step_idx (opt, store)) !! i
  = Some (match g with
          | Some g =>
              {| value := fst (adam_update (value p) g (state opt !! i));
                 requires_grad := true; grad := Some g |}
          | None => {| value := value p; requires_grad := true; grad := None |}
          end)
  /\ state (fst (train_step step_idx (opt, store))) !! i
     = match g with
       | Some g => Some (snd (adam_update (value p) g (state opt !! i)))
       | None => state opt !! i
       end.
Proof.
  intros Hnd Hin Hp Hrg. simpl.
  assert (Hzero : zero_grad opt store !! i = Some (cleared p)).
  { rewrite zero_grad_lookup, Hp. destruct (decide (i ∈ param_group opt)); [reflexivity|].
    contradiction. }
  set (store0 := zero_grad opt store) in *.
  set (q := match gradient store0 step_idx i with
            | Some g => {| value := value p; requires_grad := true; grad := Some g |}
            | None => cleared p
            end).
  assert (Hback : backward gradient accumulate_grad step_idx store0 !! i = Some q).
  { unfold backward. rewrite list_lookup_imap, Hzero. simpl. rewrite Hrg. unfold q.
    destruct (gradient store0 step_idx i); reflexivity. }
  unfold Optimizer.train_step, step.
  destruct (updates_at (param_group opt) i
              (backward gradient accumulate_grad step_idx store0, state opt) q
              Hnd Hin Hback) as [H1 H2].
  simpl in H1, H2.
  destruct (fold_left _ (param_group opt) _) as [store' st']. simpl in *.
  rewrite H1, H2. unfold q, updated, cleared.
  destruct (gradient store0 step_idx i) as [g|]; simpl.
  - destruct (adam_update (value p) g (state opt !! i)) as [v s]. simpl. auto.
  - rewrite Hrg. auto.
Qed.

(** X25: in every iteration of the loop, a parameter the optimizer was
    built over is updated once, by Adam's rule on its value, its Adam state
    and the gradient of this iteration alone: what an earlier iteration
    left in [.grad] is reset before [backward] and never accumulated.  A
    parameter that gets no gradient in this iteration keeps its value and
    its Adam state. *)
Theorem step_applies_fresh_gradient (params : list parameter) (steps : list Z)
    (step_idx : Z) (i : nat) :
  trainable params i = true ->
  let acc := after params steps in
  let g := gradient (zero_grad (fst acc) (snd acc)) step_idx i in
  exists p,
    snd acc !! i = Some p
    /\ snd (train_step step_idx acc) !! i
       = Some (match g with
               | Some g =>
                   {| value := fst (adam_update (value p) g (state (fst acc) !! i));
                      requires_grad := true; grad := Some g |}
               | None => {| value := value p; requires_grad := true; grad := None |}
               end)
    /\ state (fst (train_step step_idx acc)) !! i
       = match g with
         | Some g => Some (snd (adam_update (value p) g (state (fst acc) !! i)))
         | None => state (fst acc) !! i
         end.
Proof.
  intros Ht. simpl.
  destruct (adaptation_tracks gradient accumulate_grad adam_update params steps
              (adam params, params) eq_refl (tracks_refl params)) as [Hg [_ Htr]].
  fold (after params steps) in Hg, Htr.
  destruct (after params steps) as [opt store]. simpl in *.
  destruct (adam_param_group params) as [Hnd Hgroup].
  unfold trainable in Ht. destruct (params !! i) as [p0|] eqn:Hp0; [|discriminate].
  destruct (Htr i p0 Hp0) as (p & Hp & Hflag & _).
  exists p. split; [exact Hp|].
  apply (train_step_at opt store step_idx i p).
  - rewrite Hg. exact Hnd.
  - rewrite Hg. apply Hgroup. unfold trainable. rewrite Hp0. exact Ht.
  - exact Hp.
  - rewrite Hflag. exact Ht.
Qed.

End Adam.

(** The third step of the toy adaptation: the mixing coefficient has been
    lowered twice; its stale gradient is replaced, not accumulated. *)
Lemma step_applies_fresh_gradient_toy :
  trainable toy_parameters 0 = true
  /\ snd (Optimizer.train_step (AdamState := unit) (fun _ _ _ => Some 1%Z) Z.add
            (fun v g _ => ((v - g)%Z, tt)) 2
            (after (fun _ _ _ => Some 1%Z) Z.add (fun v g _ => ((v - g)%Z, tt))
                   toy_parameters [0%Z; 1%Z])) !! 0
     = Some {| value := 0%Z; requires_grad := true; grad := Some 1%Z |}.
Proof.
  split; [reflexivity|].
  destruct (step_applies_fresh_gradient (AdamState := unit) (fun _ _ _ => Some 1%Z) Z.add
              (fun v g _ => ((v - g)%Z, tt)) toy_parameters [0%Z; 1%Z] 2 0 eq_refl)
    as (p & Hp & Hstep & _).
  injection Hp as <-. exact Hstep.
Defined.

End OptimizerFacts.

(** * Where the cache files lie

    Source: [src/fusion_bench/compat/method/adamerging/clip_task_wise_adamerging.py],
    lines 94-97: the path [os.path.join] makes of the cache directory and
    of the name built from [os.path.basename(pretrained_path)] and the
    task. *)
Module CachePathFacts.
Import ZeroShotCache.

Local Open Scope string_scope.

(** The name of the file within the cache directory. *)
Definition cache_name (self : algorithm) (task : string) : string :=
  Path.basename (pretrained_path self) +:+ "_" +:+ task +:+ "_zeroshot_weights.pt".

Lemma basename_from_plain (b tail : string) :
  Path.has_sep b = false -> Path.basename_from b tail = tail.
Proof.
  revert tail. induction b as [|c b IH]; intros tail Hb; [reflexivity|].
  simpl in *. apply orb_false_iff in Hb. destruct Hb as [Hc Hb].
  rewrite Hc. apply IH, Hb.
Qed.

Lemma basename_from_behind_sep (x b tail : string) :
  Path.endswith_sep x = true -> Path.has_sep b = false ->
  Path.basename_from (x +:+ b) tail = b.
Proof.
  intros Hx Hb. revert tail Hx.
  induction x as [|c x IH]; intros tail Hx; [discriminate Hx|].
  rewrite Path.app_cons. destruct x as [|c' x'].
  - simpl in Hx. simpl. rewrite Hx. apply basename_from_plain, Hb.
  - change (Path.endswith_sep (String c' x') = true) in Hx.
    simpl Path.basename_from. destruct (Path.is_sep c); apply IH, Hx.
Qed.

Lemma endswith_sep_snoc (a : string) : Path.endswith_sep (a +:+ "/") = true.
Proof.
  induction a as [|c a IH]; [reflexivity|].
  rewrite Path.app_cons. destruct a as [|c' a']; [reflexivity|].
  rewrite Path.app_cons in *. exact IH.
Qed.

Lemma cache_name_plain (self : algorithm) (task : string) :
  Path.has_sep task = false -> Path.has_sep (cache_name self task) = false.
Proof.
  intros Ht. unfold cache_name.
  rewrite !Path.has_sep_app, Path.basename_no_sep, Ht. reflexivity.
Qed.

(** X26: the cache directory is never dropped from the path of a cache
    file: no name built from a backbone and a task is absolute, so
    [os.path.join] puts it behind the cache directory, with a separator
    where the directory needs one.  When the task name has no separator the
    file lies in the cache directory itself, under the name
    [{basename}_{task}_zeroshot_weights.pt], whatever directories the path
    of the backbone goes through. *)
Theorem cache_file_in_cache_dir (self : algorithm) (task : string) :
  (cache_file self task = cache_dir self +:+ cache_name self task
   \/ cache_file self task = cache_dir self +:+ "/" +:+ cache_name self task)
  /\ (Path.has_sep task = false ->
      Path.basename (cache_file self task) = cache_name self task).
Proof.
  assert (Hrel : Path.startswith_sep (cache_name self task) = false)
    by apply cache_file_name_relative, Path.basename_no_sep.
  unfold cache_file. fold (cache_name self task). unfold Path.join. rewrite Hrel.
  destruct (String.eqb_spec (cache_dir self) "") as [Hempty|Hdir]; simpl orb.
  - split; [left; reflexivity|]. intros Ht. rewrite Hempty.
    apply basename_from_plain, cache_name_plain, Ht.
  - destruct (Path.endswith_sep (cache_dir self)) eqn:Hend.
    + split; [left; reflexivity|]. intros Ht.
      apply basename_from_behind_sep; [exact Hend | apply cache_name_plain, Ht].
    + split; [right; reflexivity|]. intros Ht. unfold Path.basename.
      rewrite ZeroShotCacheFacts.string_app_assoc.
      apply basename_from_behind_sep; [apply endswith_sep_snoc | apply cache_name_plain, Ht].
Qed.

Lemma cache_file_in_cache_dir_hub_path :
  Path.has_sep "svhn" = false
  /\ Path.basename (cache_file (Algorithm "outputs/cache" "openai/clip-vit-base-patch32"
                                          ["svhn"] None) "svhn")
     = "clip-vit-base-patch32_svhn_zeroshot_weights.pt".
Proof.
  split; [reflexivity|].
  destruct (cache_file_in_cache_dir (Algorithm "outputs/cache" "openai/clip-vit-base-patch32"
                                               ["svhn"] None) "svhn") as [_ Hbase].
  rewrite (Hbase eq_refl). reflexivity.
Defined.

End CachePathFacts.
